(** * Exchange RPC client (package [exchange], file [exchange/rpc.go])

    A shallow embedding of the definition-lookup part of the Exchange
    client: [InvokeExchange], [getSearchVersion], [GetWorkload],
    [GetMicroservice], [WorkloadResolver], [GetOrganization] and
    [GetEthereumClient].

    Conventions of the embedding.
    - A Go [string] is a [string] of bytes; [error] values are their
      [Error()] text, [nil] is [None].
    - A Go [map[string]T] is the association list of its entries in the
      order in which the [range] loop visits them (Go leaves that order
      unspecified, so statements quantify over the list).
    - A pointer result is an [option]; dereferencing [nil] is the outcome
      [Panicked].
    - The network, [encoding/json] and [http.NewRequest] are members of
      the class [World]; package [policy] is the class [Policy].
    - Every [for { ... }] retry loop takes a [fuel] bound on the number of
      iterations; [None] means that the loop is still running.
    - State is the trace of requests sent and of [time.Sleep] calls.
    - Calls to [glog] are not modelled. *)

From Stdlib Require Import String Ascii List ZArith Lia Bool Arith.
From Stdlib Require Import DecimalString OrderedTypeEx.
From Stdlib Require Strings.Byte Sorting.Permutation.
Import ListNotations.

Local Open Scope list_scope.
Local Open Scope string_scope.

(** ** Package [strings] and [fmt], as far as the client uses them *)

Module GoStrings.

(** [strings.Contains(s, substr)]. *)
Fixpoint Contains (s substr : string) : bool :=
  String.prefix substr s
  || match s with
     | EmptyString => false
     | String _ s' => Contains s' substr
     end.

(** [strings.ToLower] on the bytes [A] to [Z].  Go's function also maps
    letters outside ASCII (U+0130 to [i], U+212A to [k]); the two agree
    on every text whose letters are ASCII, and error texts are taken to
    be such texts. *)
Definition lower_ascii (c : ascii) : ascii :=
  let n := nat_of_ascii c in
  if ((65 <=? n)%nat && (n <=? 90)%nat)%bool then ascii_of_nat (n + 32) else c.

Fixpoint ToLower (s : string) : string :=
  match s with
  | EmptyString => EmptyString
  | String c s' => String (lower_ascii c) (ToLower s')
  end.

(** [strings.Compare(a, b)]: byte-wise lexicographic, in [{-1, 0, 1}]. *)
Definition Compare (a b : string) : Z :=
  match String.compare a b with
  | Lt => (-1)%Z
  | Eq => 0%Z
  | Gt => 1%Z
  end.

(** [%v] of an [int]. *)
Definition itoa (z : Z) : string := NilZero.string_of_int (Z.to_int z).

(** [%v] of a [len(...)]. *)
Definition utoa (n : nat) : string := NilZero.string_of_uint (Nat.to_uint n).

(** [%v] of a slice: the elements between brackets, separated by spaces. *)
Definition fmt_slice {A} (f : A -> string) (l : list A) : string :=
  "[" ++ String.concat " " (map f l) ++ "]".

(** [%v] of an [error] interface value. *)
Definition fmt_error (e : option string) : string :=
  match e with
  | Some s => s
  | None => "<nil>"
  end.

End GoStrings.
Import GoStrings.

(** ** Data model *)

Definition error := string.

Record APISpec := {
  APISpec_SpecRef : string;
  APISpec_Org : string;
  APISpec_Version : string;
  APISpec_Arch : string
}.

Record UserInput := {
  UserInput_Name : string;
  UserInput_Label : string;
  UserInput_Type : string;
  UserInput_DefaultValue : string
}.

Record WorkloadDeployment := {
  Deployment : string;
  DeploymentSignature : string;
  Torrent : string
}.

Record WorkloadDefinition := {
  Owner : string;
  Label : string;
  Description : string;
  WorkloadURL : string;
  Version : string;
  Arch : string;
  DownloadURL : string;
  APISpecs : list APISpec;
  UserInputs : list UserInput;
  Workloads : list WorkloadDeployment;
  LastUpdated : string
}.

Record HardwareMatch := {
  USBDeviceIds : string;
  Devfiles : string
}.

Record MicroserviceDefinition := {
  ms_Owner : string;
  ms_Label : string;
  ms_Description : string;
  ms_SpecRef : string;
  ms_Version : string;
  ms_Arch : string;
  ms_Sharable : string;
  ms_DownloadURL : string;
  ms_MatchHardware : HardwareMatch;
  ms_UserInputs : list UserInput;
  ms_Workloads : list WorkloadDeployment;
  ms_LastUpdated : string
}.

Record Organization := {
  org_Label : string;
  org_Description : string;
  org_LastUpdated : string
}.

Record BlockchainDef := {
  bc_Description : string;
  bc_DefinedBy : string;
  bc_Details : string;
  bc_LastUpdated : string
}.

(** The zero values that [var x T] declares. *)
Definition zero_WorkloadDefinition : WorkloadDefinition :=
  {| Owner := ""; Label := ""; Description := ""; WorkloadURL := "";
     Version := ""; Arch := ""; DownloadURL := ""; APISpecs := [];
     UserInputs := []; Workloads := []; LastUpdated := "" |}.

Definition zero_MicroserviceDefinition : MicroserviceDefinition :=
  {| ms_Owner := ""; ms_Label := ""; ms_Description := ""; ms_SpecRef := "";
     ms_Version := ""; ms_Arch := ""; ms_Sharable := ""; ms_DownloadURL := "";
     ms_MatchHardware := {| USBDeviceIds := ""; Devfiles := "" |};
     ms_UserInputs := []; ms_Workloads := []; ms_LastUpdated := "" |}.

Definition zero_BlockchainDef : BlockchainDef :=
  {| bc_Description := ""; bc_DefinedBy := ""; bc_Details := "";
     bc_LastUpdated := "" |}.

(** [%v] of the structs that end up in error messages. *)
Definition fmt_APISpec (a : APISpec) : string :=
  "{" ++ APISpec_SpecRef a ++ " " ++ APISpec_Org a ++ " "
      ++ APISpec_Version a ++ " " ++ APISpec_Arch a ++ "}".

Definition fmt_UserInput (u : UserInput) : string :=
  "{" ++ UserInput_Name u ++ " " ++ UserInput_Label u ++ " "
      ++ UserInput_Type u ++ " " ++ UserInput_DefaultValue u ++ "}".

Definition fmt_WorkloadDeployment (d : WorkloadDeployment) : string :=
  "{" ++ Deployment d ++ " " ++ DeploymentSignature d ++ " " ++ Torrent d ++ "}".

(** [func (w *WorkloadDefinition) String() string]. *)
Definition WorkloadDefinition_String (w : WorkloadDefinition) : string :=
  "Owner: " ++ Owner w ++ ", " ++
  "Label: " ++ Label w ++ ", " ++
  "Description: " ++ Description w ++ ", " ++
  "WorkloadURL: " ++ WorkloadURL w ++ ", " ++
  "Version: " ++ Version w ++ ", " ++
  "Arch: " ++ Arch w ++ ", " ++
  "DownloadURL: " ++ DownloadURL w ++ ", " ++
  "APISpecs: " ++ fmt_slice fmt_APISpec (APISpecs w) ++ ", " ++
  "UserInputs: " ++ fmt_slice fmt_UserInput (UserInputs w) ++ ", " ++
  "Workloads: " ++ fmt_slice fmt_WorkloadDeployment (Workloads w) ++ ", " ++
  "LastUpdated: " ++ LastUpdated w.

(** The response objects that callers hand to [InvokeExchange] as
    [resp *interface{}].  Only the fields that this file reads are kept;
    [UnknownResponse] stands for every other dynamic type (and for the nil
    interface), with its [%v] rendering. *)
Inductive response :=
| PutDeviceResponse
| PostDeviceResponse (Code Msg : string)
| SearchExchangeResponse
| GetDevicesResponse
| GetAgbotsResponse
| AllDeviceAgreementsResponse
| AllAgbotAgreementsResponse
| GetDeviceMessageResponse
| GetAgbotMessageResponse
| GetEthereumClientResponse (Blockchains : list (string * BlockchainDef))
| GetWorkloadsResponse (Workloads : list (string * WorkloadDefinition))
| GetMicroservicesResponse (Microservices : list (string * MicroserviceDefinition))
| GetOrganizationResponse (Orgs : list (string * Organization))
| UnknownResponse (rendering : string).

(** The [params interface{}] argument as [InvokeExchange] observes it:
    what [json.Marshal] makes of it and how [%v] prints it. *)
Record Params := {
  params_Marshal : error + string;
  params_v : string
}.

(** The request buffer: empty for nil [params], else [json.Marshal]. *)
Definition marshal_params (p : option Params) : error + string :=
  match p with
  | Some x => params_Marshal x
  | None => inr ""
  end.

Definition fmt_params (p : option Params) : string :=
  match p with
  | Some x => params_v x
  | None => "<nil>"
  end.

(** ** HTTP *)

Record Request := {
  Method : string;
  URL : string;
  Close : bool;
  Header : list (string * string);
  RequestBody : string
}.

(** [Body] is [None] for a nil body; otherwise it holds what
    [ioutil.ReadAll] returns: the bytes read and the read error. *)
Record Response := {
  StatusCode : Z;
  Body : option (string * option error)
}.

(** [outBytes]: nothing for a nil body. *)
Definition body_bytes (httpResp : Response) : string :=
  match Body httpResp with
  | Some (b, _) => b
  | None => ""
  end.

Inductive do_outcome :=
| DoError (err : error)
| DoResponse (httpResp : Response).

(** One round trip: what [httpClient.Do] returns, and what is left unread
    in the request buffer afterwards (it is printed in error messages). *)
Record round_trip := {
  rt_outcome : do_outcome;
  rt_unread : string
}.

Inductive event :=
| EvRequest (req : Request)
| EvSleep (seconds : nat).

Definition trace := list event.

Class World := {
  (** [httpClient.Do(req)], given everything that happened before. *)
  httpClient_Do : trace -> Request -> round_trip;
  (** the error of [http.NewRequest(method, url, body)], if any. *)
  http_NewRequest : string -> string -> option error;
  (** [json.Unmarshal(outBytes, resp)]: an error, or the filled object. *)
  json_Unmarshal : string -> response -> error + response
}.

Definition StatusOK : Z := 200.
Definition StatusCreated : Z := 201.
Definition StatusNoContent : Z := 204.
Definition StatusNotFound : Z := 404.
Definition StatusInternalServerError : Z := 500.

(** [func isTimeout(err error) bool]. *)
Definition isTimeout (err : error) : bool :=
  Contains (ToLower err) "time" && Contains (ToLower err) "out".

(** The two error results of [InvokeExchange] and the response object
    after the call. *)
Record invoked := {
  r_err : option error;
  r_tpErr : option error;
  r_resp : response
}.

Definition app_error (msg : string) (r : response) : invoked :=
  {| r_err := Some msg; r_tpErr := None; r_resp := r |}.

Definition tp_error (msg : string) (r : response) : invoked :=
  {| r_err := None; r_tpErr := Some msg; r_resp := r |}.

Definition no_error (r : response) : invoked :=
  {| r_err := None; r_tpErr := None; r_resp := r |}.

(** The header block of [InvokeExchange] (rpc.go, the lines after
    [http.NewRequest]). *)
Definition add_headers (method user pw : string) : list (string * string) :=
  ([("Accept", "application/json")]
   ++ (if negb (method =? "GET") then [("Content-Type", "application/json")] else [])
   ++ (if negb (user =? "") && negb (pw =? "")
       then [("Authorization", ("Basic " ++ user ++ ":" ++ pw)%string)] else []))%list.

Definition new_request (method url user pw requestBody : string) : Request :=
  {| Method := method; URL := url; Close := true;
     Header := add_headers method user pw;
     RequestBody := requestBody |}.

(** The type switch on the decoded response object. *)
Definition check_response (method url : string) (params : option Params)
    (requestBody_v : string) (r : response) : invoked :=
  match r with
  | PostDeviceResponse code msg =>
      if negb (code =? "ok")
      then app_error ("Invocation of " ++ method ++ " at " ++ url ++ " with "
                      ++ fmt_params params ++ " returned error message: " ++ msg) r
      else no_error r
  | UnknownResponse v =>
      app_error ("Unknown type of response object " ++ v
                 ++ " passed to invocation of " ++ method ++ " at " ++ url
                 ++ " with " ++ requestBody_v) r
  | _ => no_error r
  end.

Definition status_error (method url : string) (status : Z) (outBytes : string) : string :=
  "Invocation of " ++ method ++ " at " ++ url
  ++ " failed invoking HTTP request, status: " ++ itoa status
  ++ ", response: " ++ outBytes.

(** The result of a call that may panic. *)
Inductive outcome (A : Type) :=
| Returned (a : A)
| Panicked (reason : string).
Arguments Returned {A} a.
Arguments Panicked {A} reason.

(** What one pass through the body of a [for] loop does: it returns, or
    it falls through to the next iteration. *)
Inductive step (A : Type) :=
| Done (a : A)
| Continue.
Arguments Done {A} a.
Arguments Continue {A}.

(** Package [policy], which this file calls for version strings, version
    expressions and API specifications.  Its sources are not at hand, so
    the client is stated over any implementation of these functions.
    [Version_Expression_Factory] returns [(nil, err)] or [(expr, nil)];
    [fmt_Version_Expression] is the [%v] rendering of an expression. *)
Class Policy := {
  Version_Expression : Type;
  APISpecification : Type;
  IsVersionString : string -> bool;
  IsVersionExpression : string -> bool;
  Version_Expression_Factory : string -> error + Version_Expression;
  Is_within_range : Version_Expression -> string -> error + bool;
  Get_expression : Version_Expression -> string;
  fmt_Version_Expression : Version_Expression -> string;
  APISpecification_Factory : string -> string -> string -> string -> APISpecification
}.

Section Client.

Context {W : World} {P : Policy}.

(** The last branch of [InvokeExchange]: the body is decoded into the
    response object, which is then checked by its type. *)
Definition decode_response (method url : string) (params : option Params)
    (requestBody_v outBytes : string) (resp : response) : invoked :=
  match json_Unmarshal outBytes resp with
  | inl e =>
      app_error ("Unable to demarshal response " ++ outBytes
                 ++ " from invocation of " ++ method ++ " at " ++ url
                 ++ ", error: " ++ e) resp
  | inr r => check_response method url params requestBody_v r
  end.

(** What [InvokeExchange] does with a response that [httpClient.Do]
    delivered. *)
Definition handle_response (method url : string) (params : option Params)
    (requestBody_v : string) (httpResp : Response) (resp : response) : invoked :=
  let err : option error := None in  (* [httpClient.Do] succeeded *)
  let outBytes := body_bytes httpResp in
  let readErr := match Body httpResp with Some (_, e) => e | None => None end in
  (* rpc.go tests [err], not [readErr], after [ioutil.ReadAll] *)
  match (match Body httpResp with Some _ => err | None => None end) with
  | Some e =>
      let msg := "Invocation of " ++ method ++ " at " ++ url
                 ++ " failed reading response message, HTTP Status "
                 ++ itoa (StatusCode httpResp) ++ ", error: " ++ fmt_error readErr in
      if isTimeout e then tp_error msg resp else app_error msg resp
  | None =>
      if (StatusCode httpResp =? StatusInternalServerError)%Z
         && Contains outBytes "timed out"
      then tp_error ("Invocation of " ++ method ++ " at " ++ url ++ " with "
                     ++ requestBody_v ++ " failed invoking HTTP request, error: "
                     ++ fmt_error err) resp
      else if (method =? "GET")
              && (negb (StatusCode httpResp =? StatusOK)%Z
                  && negb (StatusCode httpResp =? StatusNotFound)%Z)
      then app_error (status_error method url (StatusCode httpResp) outBytes) resp
      else if ((method =? "PUT") || (method =? "POST") || (method =? "PATCH"))
              && negb (StatusCode httpResp =? StatusCreated)%Z
      then app_error (status_error method url (StatusCode httpResp) outBytes) resp
      else if (method =? "DELETE")
              && negb (StatusCode httpResp =? StatusNoContent)%Z
      then app_error (status_error method url (StatusCode httpResp) outBytes) resp
      else if method =? "DELETE"
      then no_error resp
      else decode_response method url params requestBody_v outBytes resp
  end.

(** [func InvokeExchange(httpClient, method, url, user, pw, params, resp)],
    returning two [error]s.  [resp] is [None] for a nil pointer. *)
Definition InvokeExchange (tr : trace) (method url user pw : string)
    (params : option Params) (resp : option response) : invoked * trace :=
  (* the object behind [resp], which these early returns leave as it is *)
  let unchanged := match resp with
                   | Some r => r
                   | None => UnknownResponse "<nil>"
                   end in
  if (String.length method =? 0)%nat
  then (app_error "Error invoking exchange, method name must be specified" unchanged, tr)
  else if (String.length url =? 0)%nat
  then (app_error "Error invoking exchange, no URL to invoke" unchanged, tr)
  else
    match resp with
    | None => (app_error "Error invoking exchange, response object must be specified"
                         unchanged, tr)
    | Some r0 =>
        match marshal_params params with
        | inl e =>
            (app_error ("Invocation of " ++ method ++ " at " ++ url ++ " with "
                        ++ fmt_params params ++ " failed marshalling to json, error: "
                        ++ e) r0, tr)
        | inr requestBody =>
            match http_NewRequest method url with
            | Some e =>
                (app_error ("Invocation of " ++ method ++ " at " ++ url ++ " with "
                            ++ requestBody ++ " failed creating HTTP request, error: "
                            ++ e) r0, tr)
            | None =>
                let req := new_request method url user pw requestBody in
                let rt := httpClient_Do tr req in
                let tr' := (tr ++ [EvRequest req])%list in
                match rt_outcome rt with
                | DoError e =>
                    let msg := "Invocation of " ++ method ++ " at " ++ url ++ " with "
                               ++ rt_unread rt ++ " failed invoking HTTP request, error: "
                               ++ e in
                    if isTimeout e then (tp_error msg r0, tr') else (app_error msg r0, tr')
                | DoResponse httpResp =>
                    (handle_response method url params (rt_unread rt) httpResp r0, tr')
                end
            end
        end
    end.

(** *** The retry loop

    Each lookup function runs
    [for { if err, tpErr := InvokeExchange(...); err != nil { return ... }
    else if tpErr != nil { time.Sleep(10 * time.Second); continue }
    else { ... } }].  [onErr] is the first branch, [onOk] the last one. *)

Fixpoint retry_loop {A : Type} (fuel : nat)
    (invoke : trace -> response -> invoked * trace)
    (onErr : error -> A) (onOk : response -> step A)
    (tr : trace) (resp : response) : option (A * trace) :=
  match fuel with
  | O => None
  | S fuel' =>
      let '(iv, tr1) := invoke tr resp in
      match r_err iv with
      | Some e => Some (onErr e, tr1)
      | None =>
          match r_tpErr iv with
          | Some _ =>
              retry_loop fuel' invoke onErr onOk
                         (tr1 ++ [EvSleep 10])%list (r_resp iv)
          | None =>
              match onOk (r_resp iv) with
              | Done a => Some (a, tr1)
              | Continue => retry_loop fuel' invoke onErr onOk tr1 (r_resp iv)
              end
          end
      end
  end.

(** The call that all four lookup functions retry:
    [InvokeExchange(httpClientFactory.NewHTTPClient(nil), "GET", targetURL,
    id, token, nil, &resp)]. *)
Definition get_request (targetURL id token : string) (tr : trace) (resp : response)
    : invoked * trace :=
  InvokeExchange tr "GET" targetURL id token None (Some resp).

(** [m[k]]: the entry of a map, if present. *)
Definition map_lookup {A : Type} (k : string) (m : list (string * A)) : option A :=
  option_map snd (find (fun kv => fst kv =? k) m).

(** [func GetEthereumClient], returning the details [string] and an
    [error]. *)
Definition GetEthereumClient (fuel : nat) (tr : trace)
    (url org chainName chainType deviceId token : string)
    : option (outcome (string * option error) * trace) :=
  let resp := GetEthereumClientResponse [] in
  let targetURL := url ++ "orgs/" ++ org ++ "/bctypes/" ++ chainType
                       ++ "/blockchains/" ++ chainName in
  retry_loop fuel
    (get_request targetURL deviceId token)
    (fun e => Returned ("", Some e))
    (fun r =>
       match r with
       | GetEthereumClientResponse blockchains =>
           let clientMetadata :=
             bc_Details (match map_lookup chainName blockchains with
                         | Some b => b
                         | None => zero_BlockchainDef
                         end) in
           Done (Returned (clientMetadata, None))
       | _ => Done (Panicked "interface conversion")
       end)
    tr resp.

(** [func getSearchVersion(version string)], returning the search version
    and an [error]. *)
Definition getSearchVersion (version : string) : error + string :=
  if (version =? "") || IsVersionExpression version then inr ""
  else if IsVersionString version then inr version
  else inl ("input version " ++ version ++ " is not a valid version string").

(** [vRange, _ := policy.Version_Expression_Factory(...)]: the pointer
    that is left when the error is dropped. *)
Definition drop_error (r : error + Version_Expression) : option Version_Expression :=
  match r with
  | inr v => Some v
  | inl _ => None
  end.

(** The loop of [GetWorkload] over the fetched definitions, with its
    variables [highest] and [resWDef].  A nil [vRange] makes
    [Is_within_range] read through a nil receiver. *)
Fixpoint highest_workload (vRange : option Version_Expression)
    (workloadMetadata : list (string * WorkloadDefinition))
    (highest : string) (resWDef : WorkloadDefinition)
    : outcome (error + WorkloadDefinition) :=
  match workloadMetadata with
  | [] => Returned (inr resWDef)
  | (_, wDef) :: rest =>
      match vRange with
      | None => Panicked "nil pointer dereference"
      | Some vr =>
          match Is_within_range vr (Version wDef) with
          | inl e =>
              Returned (inl ("unable to verify that " ++ Version wDef
                             ++ " is within " ++ fmt_Version_Expression vr
                             ++ ", error " ++ e))
          | inr inRange =>
              if inRange
              then if (Compare highest (Version wDef) =? -1)%Z
                   then highest_workload vRange rest (Version wDef) wDef
                   else highest_workload vRange rest highest resWDef
              else highest_workload vRange rest highest resWDef
          end
      end
  end.

(** The last branch of the loop body of [GetWorkload]: what is returned
    for the decoded [workloadMetadata]. *)
Definition select_workload (searchVersion wVersion : string)
    (workloadMetadata : list (string * WorkloadDefinition))
    : step (outcome (option WorkloadDefinition * option error)) :=
  if negb (searchVersion =? "")
  then
    if negb (List.length workloadMetadata =? 1)%nat
    then Done (Returned (None, Some ("expecting 1 result in GET workloads response, got "
                                     ++ utoa (List.length workloadMetadata))))
    else match workloadMetadata with
         | (_, workloadDef) :: _ => Done (Returned (Some workloadDef, None))
         | [] => Continue
         end
  else
    if (List.length workloadMetadata =? 0)%nat
    then Done (Returned (None, None))
    else
      let vRange := drop_error (Version_Expression_Factory "0.0.0") in
      let vRange := if negb (wVersion =? "")
                    then drop_error (Version_Expression_Factory wVersion)
                    else vRange in
      match highest_workload vRange workloadMetadata "" zero_WorkloadDefinition with
      | Panicked p => Done (Panicked p)
      | Returned (inl e) => Done (Returned (None, Some e))
      | Returned (inr resWDef) => Done (Returned (Some resWDef, None))
      end.

Definition workload_targetURL (exURL wOrg wURL searchVersion wArch : string) : string :=
  if negb (searchVersion =? "")
  then exURL ++ "orgs/" ++ wOrg ++ "/workloads?workloadUrl=" ++ wURL
             ++ "&version=" ++ searchVersion ++ "&arch=" ++ wArch
  else exURL ++ "orgs/" ++ wOrg ++ "/workloads?workloadUrl=" ++ wURL
             ++ "&arch=" ++ wArch.

(** [func GetWorkload], returning a [*WorkloadDefinition] and an [error]. *)
Definition GetWorkload (fuel : nat) (tr : trace)
    (wURL wOrg wVersion wArch exURL id token : string)
    : option (outcome (option WorkloadDefinition * option error) * trace) :=
  let resp := GetWorkloadsResponse [] in
  match getSearchVersion wVersion with
  | inl e => Some (Returned (None, Some e), tr)
  | inr searchVersion =>
      let targetURL := workload_targetURL exURL wOrg wURL searchVersion wArch in
      retry_loop fuel
        (get_request targetURL id token)
        (fun e => Returned (None, Some e))
        (fun r =>
           match r with
           | GetWorkloadsResponse workloadMetadata =>
               select_workload searchVersion wVersion workloadMetadata
           | _ => Done (Panicked "interface conversion")
           end)
        tr resp
  end.

(** The loop of [GetMicroservice] over the fetched definitions. *)
Fixpoint highest_microservice (vRange : option Version_Expression)
    (msMetadata : list (string * MicroserviceDefinition))
    (highest : string) (resMsDef : MicroserviceDefinition)
    : outcome (error + MicroserviceDefinition) :=
  match msMetadata with
  | [] => Returned (inr resMsDef)
  | (_, msDef) :: rest =>
      match vRange with
      | None => Panicked "nil pointer dereference"
      | Some vr =>
          match Is_within_range vr (ms_Version msDef) with
          | inl e =>
              Returned (inl ("unable to verify that " ++ ms_Version msDef
                             ++ " is within " ++ fmt_Version_Expression vr
                             ++ ", error " ++ e))
          | inr inRange =>
              if inRange
              then if (Compare highest (ms_Version msDef) =? -1)%Z
                   then highest_microservice vRange rest (ms_Version msDef) msDef
                   else highest_microservice vRange rest highest resMsDef
              else highest_microservice vRange rest highest resMsDef
          end
      end
  end.

(** The last branch of the loop body of [GetMicroservice]. *)
Definition select_microservice (searchVersion mVersion : string)
    (msMetadata : list (string * MicroserviceDefinition))
    : step (outcome (option MicroserviceDefinition * option error)) :=
  if negb (searchVersion =? "")
  then
    if negb (List.length msMetadata =? 1)%nat
    then Done (Returned (None, Some ("expecting 1 result in GET microservces response, got "
                                     ++ utoa (List.length msMetadata))))
    else match msMetadata with
         | (_, msDef) :: _ => Done (Returned (Some msDef, None))
         | [] => Continue
         end
  else
    let vRange := drop_error (Version_Expression_Factory "0.0.0") in
    let vRange := if negb (mVersion =? "")
                  then drop_error (Version_Expression_Factory mVersion)
                  else vRange in
    match highest_microservice vRange msMetadata "" zero_MicroserviceDefinition with
    | Panicked p => Done (Panicked p)
    | Returned (inl e) => Done (Returned (None, Some e))
    | Returned (inr resMsDef) => Done (Returned (Some resMsDef, None))
    end.

Definition microservice_targetURL (exURL mOrg mURL searchVersion mArch : string) : string :=
  if negb (searchVersion =? "")
  then exURL ++ "orgs/" ++ mOrg ++ "/microservices?specRef=" ++ mURL
             ++ "&version=" ++ searchVersion ++ "&arch=" ++ mArch
  else exURL ++ "orgs/" ++ mOrg ++ "/microservices?specRef=" ++ mURL
             ++ "&arch=" ++ mArch.

(** [func GetMicroservice], returning a [*MicroserviceDefinition] and an
    [error]. *)
Definition GetMicroservice (fuel : nat) (tr : trace)
    (mURL mOrg mVersion mArch exURL id token : string)
    : option (outcome (option MicroserviceDefinition * option error) * trace) :=
  let resp := GetMicroservicesResponse [] in
  match getSearchVersion mVersion with
  | inl e => Some (Returned (None, Some e), tr)
  | inr searchVersion =>
      let targetURL := microservice_targetURL exURL mOrg mURL searchVersion mArch in
      retry_loop fuel
        (get_request targetURL id token)
        (fun e => Returned (None, Some e))
        (fun r =>
           match r with
           | GetMicroservicesResponse msMetadata =>
               select_microservice searchVersion mVersion msMetadata
           | _ => Done (Panicked "interface conversion")
           end)
        tr resp
  end.

(** The dependency loop of [WorkloadResolver]: every [apiSpec] of the
    workload is looked up with [GetMicroservice].  The result is the
    error that ends the loop, or [None] when the loop runs to its end. *)
Fixpoint resolve_microservices (fuel : nat) (tr : trace)
    (apiSpecs : list APISpec) (exURL id token : string)
    : option (outcome (option error) * trace) :=
  match apiSpecs with
  | [] => Some (Returned None, tr)
  | apiSpec :: rest =>
      match Version_Expression_Factory (APISpec_Version apiSpec) with
      | inl e =>
          Some (Returned (Some ("unable to create version expression from "
                                ++ APISpec_Version apiSpec ++ ", error " ++ e)), tr)
      | inr vExp =>
          match GetMicroservice fuel tr (APISpec_SpecRef apiSpec) (APISpec_Org apiSpec)
                                (Get_expression vExp) (APISpec_Arch apiSpec)
                                exURL id token with
          | None => None
          | Some (Panicked p, tr1) => Some (Panicked p, tr1)
          | Some (Returned (_, Some e), tr1) => Some (Returned (Some e), tr1)
          | Some (Returned (None, None), tr1) =>
              Some (Returned (Some ("unable to find microservice " ++ fmt_APISpec apiSpec
                                    ++ " within " ++ fmt_Version_Expression vExp)), tr1)
          | Some (Returned (Some _, None), tr1) =>
              resolve_microservices fuel tr1 rest exURL id token
          end
      end
  end.

(** [func WorkloadResolver], returning a [*policy.APISpecList] and an
    [error]. *)
Definition WorkloadResolver (fuel : nat) (tr : trace)
    (wURL wOrg wVersion wArch exURL id token : string)
    : option (outcome (option (list APISpecification) * option error) * trace) :=
  let resolveMicroservices := true in
  match GetWorkload fuel tr wURL wOrg wVersion wArch exURL id token with
  | None => None
  | Some (Panicked p, tr1) => Some (Panicked p, tr1)
  | Some (Returned (_, Some e), tr1) => Some (Returned (None, Some e), tr1)
  | Some (Returned (None, None), tr1) =>
      (* [workload.Workloads] with [workload == nil] *)
      Some (Panicked "nil pointer dereference", tr1)
  | Some (Returned (Some workload, None), tr1) =>
      if negb (List.length (Workloads workload) =? 1)%nat
      then Some (Returned (None,
                   Some ("expecting 1 element in the workloads array of "
                         ++ WorkloadDefinition_String workload ++ ", have "
                         ++ utoa (List.length (Workloads workload)))), tr1)
      else
        match (if resolveMicroservices : bool
               then resolve_microservices fuel tr1 (APISpecs workload) exURL id token
               else Some (Returned None, tr1)) with
        | None => None
        | Some (Panicked p, tr2) => Some (Panicked p, tr2)
        | Some (Returned (Some e), tr2) => Some (Returned (None, Some e), tr2)
        | Some (Returned None, tr2) =>
            let res :=
              map (fun apiSpec =>
                     APISpecification_Factory (APISpec_SpecRef apiSpec) (APISpec_Org apiSpec)
                                              (APISpec_Version apiSpec) (APISpec_Arch apiSpec))
                  (APISpecs workload) in
            Some (Returned (Some res, None), tr2)
        end
  end.

(** [func GetOrganization], returning an [*Organization] and an [error]. *)
Definition GetOrganization (fuel : nat) (tr : trace) (org exURL id token : string)
    : option (outcome (option Organization * option error) * trace) :=
  let resp := GetOrganizationResponse [] in
  let targetURL := exURL ++ "orgs/" ++ org in
  retry_loop fuel
    (get_request targetURL id token)
    (fun e => Returned (None, Some e))
    (fun r =>
       match r with
       | GetOrganizationResponse orgs =>
           match map_lookup org orgs with
           | None => Done (Returned (None, Some ("organization " ++ org ++ " not found")))
           | Some theOrg => Done (Returned (Some theOrg, None))
           end
       | _ => Done (Panicked "interface conversion")
       end)
    tr resp.

End Client.

(** ** Versions and ranges *)

Module SpecPolicy.

(** Package [policy] is not part of the sources at hand.  This module
    models its version functions from the spec's data model, for the
    concrete runs below: a version is a dotted numeric string; a range is
    a single version [v], read as [[v, INFINITY)], or a full interval
    with either kind of bracket; versions are ordered segment by segment,
    left to right, a missing trailing segment counting as zero. *)

Definition digit (c : ascii) : option nat :=
  let n := nat_of_ascii c in
  if ((48 <=? n)%nat && (n <=? 57)%nat)%bool then Some (n - 48) else None.

Fixpoint parse_digits (s : string) (acc : nat) : option nat :=
  match s with
  | EmptyString => Some acc
  | String c s' =>
      match digit c with
      | Some d => parse_digits s' (10 * acc + d)
      | None => None
      end
  end.

Definition parse_segment (s : string) : option nat :=
  match s with
  | EmptyString => None
  | _ => parse_digits s 0
  end.

Fixpoint split_on (sep : ascii) (s : string) : list string :=
  match s with
  | EmptyString => [EmptyString]
  | String c s' =>
      if Ascii.eqb c sep then EmptyString :: split_on sep s'
      else match split_on sep s' with
           | h :: t => String c h :: t
           | [] => [String c EmptyString]
           end
  end.

Fixpoint all_some {A} (l : list (option A)) : option (list A) :=
  match l with
  | [] => Some []
  | Some x :: l' => option_map (cons x) (all_some l')
  | None :: _ => None
  end.

(** Modelled from the spec: a version is a dotted numeric string; the
    parser of package [policy] is missing. *)
Definition parse_version (s : string) : option (list nat) :=
  all_some (map parse_segment (split_on "." s)).

(** Modelled from the spec: [isVersion(s)], for the missing
    [policy.IsVersionString]. *)
Definition isVersion (s : string) : bool :=
  match parse_version s with
  | Some _ => true
  | None => false
  end.

(** Modelled from the spec: the segment-wise numeric order on parsed
    versions, missing trailing segments being zero; [cmp_zero b] compares
    the empty version with [b].  The comparison of package [policy] is
    missing. *)
Fixpoint cmp_zero (b : list nat) : comparison :=
  match b with
  | [] => Eq
  | y :: b' => match Nat.compare 0 y with Eq => cmp_zero b' | c => c end
  end.

Fixpoint cmp_segments (a b : list nat) : comparison :=
  match a with
  | [] => cmp_zero b
  | x :: a' =>
      match b with
      | [] => match Nat.compare x 0 with Eq => cmp_segments a' [] | c => c end
      | y :: b' => match Nat.compare x y with Eq => cmp_segments a' b' | c => c end
      end
  end.

(** Modelled from the spec: [cmp(a, b)], in [{-1, 0, +1}]; strings that
    are no versions compare as the empty version. *)
Definition cmp (a b : string) : Z :=
  let seg s := match parse_version s with Some l => l | None => [] end in
  match cmp_segments (seg a) (seg b) with
  | Lt => (-1)%Z
  | Eq => 0%Z
  | Gt => 1%Z
  end.

(** A parsed range; [range_end = None] is [INFINITY]. *)
Record range := {
  range_start : list nat;
  start_inclusive : bool;
  range_end : option (list nat);
  end_inclusive : bool;
  expression : string
}.

Fixpoint split_last (s : string) : option (string * ascii) :=
  match s with
  | EmptyString => None
  | String c EmptyString => Some (EmptyString, c)
  | String c s' =>
      match split_last s' with
      | Some (init, l) => Some (String c init, l)
      | None => None
      end
  end.

Fixpoint strip_spaces (s : string) : string :=
  match s with
  | EmptyString => EmptyString
  | String c s' =>
      if Ascii.eqb c " " then strip_spaces s' else String c (strip_spaces s')
  end.

(** Modelled from the spec: a full interval, that is an opening bracket,
    two bounds separated by a comma, and a closing bracket; the parser of
    package [policy] is missing. *)
Definition parse_interval (s : string) : option range :=
  match s with
  | String o rest =>
      match split_last rest with
      | Some (inner, c) =>
          let open_ok := (Ascii.eqb o "[" || Ascii.eqb o "(")%bool in
          let close_ok := (Ascii.eqb c "]" || Ascii.eqb c ")")%bool in
          match split_on "," inner with
          | [lo; hi] =>
              let lo := strip_spaces lo in
              let hi := strip_spaces hi in
              match parse_version lo with
              | Some l =>
                  let hi_parsed :=
                    if hi =? "INFINITY" then Some None
                    else option_map Some (parse_version hi) in
                  match hi_parsed with
                  | Some h =>
                      if (open_ok && close_ok)%bool
                      then Some {| range_start := l;
                                   start_inclusive := Ascii.eqb o "[";
                                   range_end := h;
                                   end_inclusive := Ascii.eqb c "]";
                                   expression := String o (lo ++ "," ++ hi ++ String c "") |}
                      else None
                  | None => None
                  end
              | None => None
              end
          | _ => None
          end
      | None => None
      end
  | EmptyString => None
  end.

(** Modelled from the spec: [isRange(s)], a full interval, for the missing
    [policy.IsVersionExpression]. *)
Definition isRange (s : string) : bool :=
  match parse_interval s with
  | Some _ => true
  | None => false
  end.

(** Modelled from the spec: [parseRange(s)], where a bare version [v]
    parses to [[v, INFINITY)], for the missing
    [policy.Version_Expression_Factory]. *)
Definition parseRange (s : string) : error + range :=
  match parse_version s with
  | Some l =>
      inr {| range_start := l; start_inclusive := true;
             range_end := None; end_inclusive := false;
             expression := "[" ++ s ++ ",INFINITY)" |}
  | None =>
      match parse_interval s with
      | Some r => inr r
      | None => inl ("version string " ++ s ++ " is not a valid version expression")
      end
  end.

(** Modelled from the spec: [inRange(v, r)], for the missing
    [Is_within_range]. *)
Definition inRange (r : range) (v : string) : error + bool :=
  match parse_version v with
  | None => inl ("input version " ++ v ++ " is not a valid version string")
  | Some l =>
      let above :=
        match cmp_segments l (range_start r) with
        | Gt => true
        | Eq => start_inclusive r
        | Lt => false
        end in
      let below :=
        match range_end r with
        | None => true
        | Some h =>
            match cmp_segments l h with
            | Lt => true
            | Eq => end_inclusive r
            | Gt => false
            end
        end in
      inr (above && below)%bool
  end.

(** Modelled from the spec: the dependencies that [resolveWorkload]
    returns are [(specRef, org, version, arch)]; the type
    [policy.APISpecification] is missing. *)
Definition dependency : Type := string * string * string * string.

(** Modelled from the spec: package [policy] as the client sees it. *)
#[export] Instance spec_policy : Policy := {|
  Version_Expression := range;
  APISpecification := dependency;
  IsVersionString := isVersion;
  IsVersionExpression := isRange;
  Version_Expression_Factory := parseRange;
  Is_within_range := inRange;
  Get_expression := expression;
  fmt_Version_Expression := expression;
  APISpecification_Factory := fun ref org vers arch => (ref, org, vers, arch)
|}.

End SpecPolicy.

(** ** Notions used in the statements *)

(** The method / status matrix: [GET] takes 200 or 404, [PUT], [POST] and
    [PATCH] take 201, [DELETE] takes 204. *)
Definition accepted_status (method : string) (status : Z) : bool :=
  if method =? "GET" then ((status =? 200) || (status =? 404))%Z
  else if (method =? "PUT") || (method =? "POST") || (method =? "PATCH")
       then (status =? 201)%Z
       else if method =? "DELETE" then (status =? 204)%Z else true.

(** A round trip that counts as a transport failure: [httpClient.Do]
    fails with an error that [isTimeout] recognises, or the response has
    status 500 and a body that contains "timed out". *)
Definition transport_round_trip (rt : round_trip) : bool :=
  match rt_outcome rt with
  | DoError e => isTimeout e
  | DoResponse httpResp =>
      (StatusCode httpResp =? StatusInternalServerError)%Z
      && Contains (body_bytes httpResp) "timed out"
  end.

(** The result of a call that gets as far as sending its request. *)
Definition after_round_trip {W : World} (method url : string) (params : option Params)
    (r0 : response) (rt : round_trip) : invoked :=
  match rt_outcome rt with
  | DoError e =>
      let msg := "Invocation of " ++ method ++ " at " ++ url ++ " with "
                 ++ rt_unread rt ++ " failed invoking HTTP request, error: " ++ e in
      if isTimeout e then tp_error msg r0 else app_error msg r0
  | DoResponse httpResp =>
      handle_response method url params (rt_unread rt) httpResp r0
  end.

(** The durations of the [time.Sleep] calls of a trace, in seconds. *)
Definition sleeps (tr : trace) : list nat :=
  flat_map (fun e => match e with
                     | EvSleep s => [s]
                     | EvRequest _ => []
                     end) tr.

(** [settles invoke n tr resp iv tr']: from trace [tr] and response object
    [resp], the first [n] calls return a transport error and nothing else,
    each is followed by a sleep of 10 seconds, and call [n + 1] returns
    [iv], which is no such failure, at trace [tr']. *)
Inductive settles (invoke : trace -> response -> invoked * trace)
  : nat -> trace -> response -> invoked -> trace -> Prop :=
| settles_now tr resp iv tr1 :
    invoke tr resp = (iv, tr1) ->
    r_err iv <> None \/ r_tpErr iv = None ->
    settles invoke 0 tr resp iv tr1
| settles_later n tr resp iv0 tr1 iv tr' :
    invoke tr resp = (iv0, tr1) ->
    r_err iv0 = None ->
    r_tpErr iv0 <> None ->
    settles invoke n (tr1 ++ [EvSleep 10])%list (r_resp iv0) iv tr' ->
    settles invoke (S n) tr resp iv tr'.

(** The selection loop that [GetWorkload] and [GetMicroservice] both
    contain, over any type of definition with a version. *)
Fixpoint highest_by {P : Policy} {D : Type} (version : D -> string)
    (vRange : option Version_Expression) (l : list (string * D))
    (highest : string) (res : D) : outcome (error + D) :=
  match l with
  | [] => Returned (inr res)
  | (_, d) :: rest =>
      match vRange with
      | None => Panicked "nil pointer dereference"
      | Some vr =>
          match Is_within_range vr (version d) with
          | inl e =>
              Returned (inl ("unable to verify that " ++ version d
                             ++ " is within " ++ fmt_Version_Expression vr
                             ++ ", error " ++ e))
          | inr inRange =>
              if inRange
              then if (Compare highest (version d) =? -1)%Z
                   then highest_by version vRange rest (version d) d
                   else highest_by version vRange rest highest res
              else highest_by version vRange rest highest res
          end
      end
  end.

(** The transport fails for good: every round trip is a transport
    failure. *)
Definition transport_always_fails {W : World} : Prop :=
  forall t req, transport_round_trip (httpClient_Do t req) = true.

(** What a lookup returns for the call [iv] that ended its loop: the
    application error of that call together with the zero value [zero]
    (the first branch of the loop body), or else what the last branch
    [onOk] of the loop body makes of the decoded response. *)
Definition settled_result {A : Type} (zero : A)
    (onOk : response -> step (outcome (A * option error)))
    (iv : invoked) (out : outcome (A * option error)) : Prop :=
  match r_err iv with
  | Some e => out = Returned (zero, Some e)
  | None => onOk (r_resp iv) = Done out
  end.

(** ** Scripted exchanges, for concrete runs *)

Module Scenario.

Definition is_request (e : event) : bool :=
  match e with
  | EvRequest _ => true
  | EvSleep _ => false
  end.

Definition requests_sent (tr : trace) : nat := List.length (filter is_request tr).

Definition failing (e : error) : round_trip :=
  {| rt_outcome := DoError e; rt_unread := "" |}.

Definition timeout : round_trip :=
  failing ("Get https://exchange.example/v1/orgs/acme: net/http: request canceled "
           ++ "(Client.Timeout exceeded while awaiting headers)").

Definition reply (status : Z) (body : string) : round_trip :=
  {| rt_outcome := DoResponse {| StatusCode := status; Body := Some (body, None) |};
     rt_unread := "" |}.

(** The [k]-th request gets the [k]-th round trip of [script], and a
    timeout once the script is used up; [decode] lists what
    [json.Unmarshal] makes of each body. *)
Definition scripted (script : list round_trip) (decode : list (string * response))
    : World :=
  {| httpClient_Do := fun tr _ => nth (requests_sent tr) script timeout;
     http_NewRequest := fun _ _ => None;
     json_Unmarshal := fun body _ =>
       match map_lookup body decode with
       | Some r => inr r
       | None => inl "invalid character"
       end |}.

Definition workload (version : string) (deployments : list WorkloadDeployment)
    (apiSpecs : list APISpec) : WorkloadDefinition :=
  {| Owner := "acme/admin"; Label := "w"; Description := "";
     WorkloadURL := "https://acme.example/w"; Version := version; Arch := "amd64";
     DownloadURL := ""; APISpecs := apiSpecs; UserInputs := [];
     Workloads := deployments; LastUpdated := "" |}.

Definition microservice (version : string) : MicroserviceDefinition :=
  {| ms_Owner := "acme/admin"; ms_Label := "m"; ms_Description := "";
     ms_SpecRef := "https://acme.example/m"; ms_Version := version;
     ms_Arch := "amd64"; ms_Sharable := "single"; ms_DownloadURL := "";
     ms_MatchHardware := {| USBDeviceIds := ""; Devfiles := "" |};
     ms_UserInputs := []; ms_Workloads := []; ms_LastUpdated := "" |}.

Definition one_deployment : list WorkloadDeployment :=
  [{| Deployment := "{}"; DeploymentSignature := "sig"; Torrent := "" |}].

(** *** Exchanges for [InvokeExchange] *)

Definition exchange_url : string := "https://exchange.example/v1/orgs/acme".

Definition timed_out_500 : World :=
  scripted [reply 500 "upstream request timed out"] [].

Definition forbidden_403 : World :=
  scripted [reply 403 "invalid credentials"] [].

Definition connection_refused : World :=
  scripted [failing ("Get https://exchange.example/v1/orgs/acme: "
                     ++ "dial tcp 192.0.2.10:443: connect: connection refused")] [].

Definition no_such_host : World :=
  scripted [failing ("Get https://exchange.example/v1/orgs/acme: "
                     ++ "dial tcp: lookup exchange.example on 192.0.2.53:53: no such host")] [].

Definition answers_empty : World :=
  scripted [reply 200 "{}"] [("{}", GetOrganizationResponse [])].

Definition some_params : Params :=
  {| params_Marshal := inr "{}"; params_v := "map[]" |}.

(** *** Exchanges for the lookup functions *)

Definition exURL : string := "https://exchange.example/v1/".
Definition wURL : string := "https://acme.example/w".
Definition mURL : string := "https://acme.example/m".

Definition dead_transport : World :=
  {| httpClient_Do := fun _ _ => timeout;
     http_NewRequest := fun _ _ => None;
     json_Unmarshal := fun _ r => inr r |}.

(** The same transport, with an [http.NewRequest] that refuses a URL
    with a control character in it. *)
Definition has_control_byte (url : string) : bool :=
  existsb (fun c => (nat_of_ascii c <? 32)%nat || (nat_of_ascii c =? 127)%nat)
          (list_ascii_of_string url).

Definition dead_transport_strict : World :=
  {| httpClient_Do := fun _ _ => timeout;
     http_NewRequest := fun _ url =>
       if has_control_byte url
       then Some ("parse " ++ url ++ ": net/url: invalid control character in URL")
       else None;
     json_Unmarshal := fun _ r => inr r |}.

Definition w_1_2_0 : WorkloadDefinition := workload "1.2.0" one_deployment [].

(** One timeout, then the single record of version 1.2.0. *)
Definition exact_match : World :=
  scripted [timeout; reply 200 "one"]
           [("one", GetWorkloadsResponse [("acme/w_1.2.0_amd64", w_1_2_0)])].

(** The Exchange of the spec's workload scenario: versions 1.0.0, 1.2.0
    and 2.0.0. *)
Definition three_versions : World :=
  scripted [reply 200 "all"]
           [("all", GetWorkloadsResponse
                      [("acme/w_1.0.0_amd64", workload "1.0.0" one_deployment []);
                       ("acme/w_2.0.0_amd64", workload "2.0.0" one_deployment []);
                       ("acme/w_1.2.0_amd64", w_1_2_0)])].

(** Versions 1.9.0 and 1.10.0 of a workload and of a microservice. *)
Definition two_digit_versions : World :=
  scripted [reply 200 "W"; reply 200 "M"]
           [("W", GetWorkloadsResponse
                    [("acme/w_1.9.0_amd64", workload "1.9.0" one_deployment []);
                     ("acme/w_1.10.0_amd64", workload "1.10.0" one_deployment [])]);
            ("M", GetMicroservicesResponse
                    [("acme/m_1.10.0_amd64", microservice "1.10.0");
                     ("acme/m_1.9.0_amd64", microservice "1.9.0")])].

(** Nothing is stored in the Exchange. *)
Definition nothing_stored : World :=
  scripted [reply 200 "{}"; reply 200 "{}"]
           [("{}", GetMicroservicesResponse [])].

Definition no_workloads : World :=
  scripted [reply 200 "{}"] [("{}", GetWorkloadsResponse [])].

(** Only version 1.0.0 of the workload is stored. *)
Definition only_1_0_0 : World :=
  scripted [reply 200 "W"]
           [("W", GetWorkloadsResponse
                    [("acme/w_1.0.0_amd64", workload "1.0.0" one_deployment [])])].

Definition dependency_m : APISpec :=
  {| APISpec_SpecRef := mURL; APISpec_Org := "acme";
     APISpec_Version := "1.0.0"; APISpec_Arch := "amd64" |}.

(** A workload that depends on a microservice of which the Exchange has
    no definition. *)
Definition missing_dependency : World :=
  scripted [reply 200 "W"; reply 200 "M"]
           [("W", GetWorkloadsResponse
                    [("acme/w_1.0.0_amd64", workload "1.0.0" one_deployment [dependency_m])]);
            ("M", GetMicroservicesResponse [])].

Definition two_deployments : list WorkloadDeployment :=
  [{| Deployment := "{}"; DeploymentSignature := "sig1"; Torrent := "" |};
   {| Deployment := "{}"; DeploymentSignature := "sig2"; Torrent := "" |}].

(** A workload with two deployments, whose dependency exists. *)
Definition two_deployments_stored : World :=
  scripted [reply 200 "W"; reply 200 "M"]
           [("W", GetWorkloadsResponse
                    [("acme/w_1.0.0_amd64", workload "1.0.0" two_deployments [dependency_m])]);
            ("M", GetMicroservicesResponse [("acme/m_1.0.0_amd64", microservice "1.0.0")])].

Definition P : Policy := SpecPolicy.spec_policy.

End Scenario.

(** ** Other functions of [rpc.go] *)

Module GoSlices.

(** The byte offset of the first occurrence of [substr] in [s]. *)
Fixpoint index_of (s substr : string) : option nat :=
  if String.prefix substr s then Some 0
  else match s with
       | EmptyString => None
       | String _ s' => option_map S (index_of s' substr)
       end.

(** [strings.Index(s, substr)]: -1 when [substr] does not occur. *)
Definition Index (s substr : string) : Z :=
  match index_of s substr with
  | Some n => Z.of_nat n
  | None => (-1)%Z
  end.

(** [s[:hi]]; the bound must lie in [0 .. len(s)]. *)
Definition slice_to (s : string) (hi : Z) : outcome string :=
  if ((hi <? 0) || (Z.of_nat (String.length s) <? hi))%Z
  then Panicked "slice bounds out of range"
  else Returned (String.substring 0 (Z.to_nat hi) s).

(** [s[lo:]]. *)
Definition slice_from (s : string) (lo : Z) : outcome string :=
  if ((lo <? 0) || (Z.of_nat (String.length s) <? lo))%Z
  then Panicked "slice bounds out of range"
  else Returned (String.substring (Z.to_nat lo) (String.length s - Z.to_nat lo) s).

Fixpoint in_cutset (c : ascii) (cutset : string) : bool :=
  match cutset with
  | EmptyString => false
  | String d cutset' => Ascii.eqb c d || in_cutset c cutset'
  end.

(** [strings.TrimRight(s, cutset)] for a cutset of ASCII characters: the
    trailing bytes that belong to the cutset are removed. *)
Fixpoint TrimRight (s cutset : string) : string :=
  match s with
  | EmptyString => EmptyString
  | String c s' =>
      match TrimRight s' cutset with
      | EmptyString => if in_cutset c cutset then EmptyString else String c EmptyString
      | t => String c t
      end
  end.

(** [strconv.FormatBool]. *)
Definition FormatBool (b : bool) : string := if b then "true" else "false".

(** [%v] of a [[]byte]. *)
Definition fmt_bytes (l : list Byte.byte) : string :=
  fmt_slice (fun b => utoa (Byte.to_nat b)) l.

End GoSlices.
Import GoSlices.

(** [func GetOrg(id string) string]: [id[:strings.Index(id, "/")]]. *)
Definition GetOrg (id : string) : outcome string :=
  slice_to id (Index id "/").

(** [func GetId(id string) string]: [id[strings.Index(id, "/")+1:]]. *)
Definition GetId (id : string) : outcome string :=
  slice_from id (Index id "/" + 1).

(** [func ConvertToString(a []string) string]. *)
Definition ConvertToString (a : list string) : string :=
  let r := fold_left (fun r s => (r ++ s) ++ ",") a "" in
  TrimRight r ",".

(** [func (w *WorkloadDefinition) GetUserInputName(name string) *UserInput],
    for a non-nil receiver: the loop over [w.UserInputs]. *)
Fixpoint user_input_named (userInputs : list UserInput) (name : string)
    : option UserInput :=
  match userInputs with
  | [] => None
  | ui :: rest =>
      if UserInput_Name ui =? name then Some ui else user_input_named rest name
  end.

Definition GetUserInputName (w : WorkloadDefinition) (name : string) : option UserInput :=
  user_input_named (UserInputs w) name.

(** [type ExchangeMessageTarget struct]; [K] stands for [rsa.PublicKey]. *)
Record ExchangeMessageTarget (K : Type) := {
  ReceiverExchangeId : string;
  ReceiverPublicKeyObj : option K;
  ReceiverPublicKeyBytes : list Byte.byte;
  ReceiverMsgEndPoint : string
}.
Arguments ReceiverExchangeId {K} _.
Arguments ReceiverPublicKeyObj {K} _.
Arguments ReceiverPublicKeyBytes {K} _.
Arguments ReceiverMsgEndPoint {K} _.

Section MessageTarget.

(** [rsa.PublicKey] and the [%v] rendering of a non-nil pointer to one. *)
Variable K : Type.
Variable fmt_PublicKey : K -> string.

Definition fmt_key_pointer (k : option K) : string :=
  match k with
  | Some x => fmt_PublicKey x
  | None => "<nil>"
  end.

(** [func CreateMessageTarget(receiverId, receiverPubKey,
    receiverPubKeySerialized, receiverMessageEndpoint)], returning an
    [*ExchangeMessageTarget] and an [error]. *)
Definition CreateMessageTarget (receiverId : string) (receiverPubKey : option K)
    (receiverPubKeySerialized : list Byte.byte) (receiverMessageEndpoint : string)
    : option (ExchangeMessageTarget K) * option error :=
  let no_key_obj := match receiverPubKey with Some _ => false | None => true end in
  if (String.length receiverMessageEndpoint =? 0)%nat && no_key_obj
     && (List.length receiverPubKeySerialized =? 0)%nat
  then (None,
        Some ("Must specify either one of the public key inputs OR the message "
              ++ "endpoint input for the message receiver " ++ receiverId))
  else if negb (String.length receiverMessageEndpoint =? 0)%nat
          && (negb no_key_obj || negb (List.length receiverPubKeySerialized =? 0)%nat)
  then (None,
        Some ("Specified message endpoint and at least one of the public key inputs "
              ++ "for the message receiver " ++ receiverId ++ ", "
              ++ fmt_key_pointer receiverPubKey ++ " or "
              ++ fmt_bytes receiverPubKeySerialized))
  else (Some {| ReceiverExchangeId := receiverId;
                ReceiverPublicKeyObj := receiverPubKey;
                ReceiverPublicKeyBytes := receiverPubKeySerialized;
                ReceiverMsgEndPoint := receiverMessageEndpoint |},
        None).

End MessageTarget.

(** [type MSProp struct]. *)
Record MSProp := {
  MSProp_Name : string;
  MSProp_Value : string;
  MSProp_PropType : string;
  MSProp_Op : string
}.

(** The dynamic value of an [interface{}], by the cases that the type
    switch of [ConvertPropertyToExchangeFormat] tells apart.  [F] stands
    for [float64]; [VOther] carries what [reflect.TypeOf(v).String()]
    returns for any other type, [VNil] is the nil interface. *)
Inductive go_value (F : Type) :=
| VString (s : string)
| VInt (i : Z)
| VBool (b : bool)
| VStringSlice (l : list string)
| VFloat64 (f : F)
| VNil
| VOther (type_name : string).
Arguments VString {F} s.
Arguments VInt {F} i.
Arguments VBool {F} b.
Arguments VStringSlice {F} l.
Arguments VFloat64 {F} f.
Arguments VNil {F}.
Arguments VOther {F} type_name.

(** [policy.Property], as far as this file reads it: a [Name] that is
    compared with a string and a [Value] of type [interface{}]. *)
Record Property (F : Type) := {
  Property_Name : string;
  Property_Value : go_value F
}.
Arguments Property_Name {F} _.
Arguments Property_Value {F} _.

Section PropertyConversion.

(** [float64] and the conversion [int(f)]. *)
Variable F : Type.
Variable int_of_float64 : F -> Z.

(** [func ConvertPropertyToExchangeFormat(prop *policy.Property)],
    returning an [*MSProp] and an [error]. *)
Definition ConvertPropertyToExchangeFormat (prop : option (Property F))
    : outcome (option MSProp * option error) :=
  match prop with
  | None => Panicked "nil pointer dereference"
  | Some prop =>
      if Property_Name prop =? "version"
      then
        match Property_Value prop with
        | VString s =>
            Returned (Some {| MSProp_Name := Property_Name prop;
                              MSProp_Value := s;
                              MSProp_PropType := "version";
                              MSProp_Op := "in" |}, None)
        | _ => Panicked "interface conversion"
        end
      else
        let put (pType pValue pCompare : string) :=
          Returned (Some {| MSProp_Name := Property_Name prop;
                            MSProp_Value := pValue;
                            MSProp_PropType := pType;
                            MSProp_Op := pCompare |}, None) in
        match Property_Value prop with
        | VString s => put "string" s "in"
        | VInt i => put "int" (itoa i) ">="
        | VBool b => put "boolean" (FormatBool b) "="
        | VStringSlice l => put "list" (ConvertToString l) "in"
        | VFloat64 f => put "int" (itoa (int_of_float64 f)) ">="
        | VNil => Panicked "nil pointer dereference"
        | VOther type_name =>
            Returned (None,
                      Some ("Encountered unsupported property type: " ++ type_name
                            ++ " converting to exchange format."))
        end
  end.

End PropertyConversion.

(** ** Further notions used in the statements *)

(** The part of a trace that [n] failed attempts at [req] leave: each
    request is followed by a sleep of 10 seconds. *)
Fixpoint retries (req : Request) (n : nat) : trace :=
  match n with
  | O => []
  | S n' => EvRequest req :: EvSleep 10 :: retries req n'
  end.

(** [d] is inside the range and no candidate of [l] inside the range has
    a version above that of [d] in the byte-wise order. *)
Definition bytewise_highest {P : Policy} {D : Type} (version : D -> string)
    (vr : Version_Expression) (l : list (string * D)) (d : D) : Prop :=
  (exists k, In (k, d) l)
  /\ Is_within_range vr (version d) = inr true
  /\ forall k' d', In (k', d') l ->
                   Is_within_range vr (version d') = inr true ->
                   Compare (version d) (version d') <> (-1)%Z.

(** The range check of a fetched definition returns no error. *)
Definition range_checked {P : Policy} {D : Type} (version : D -> string)
    (vr : Version_Expression) (kd : string * D) : Prop :=
  exists b, Is_within_range vr (version (snd kd)) = inr b.

(** The range that the lookups use for the version argument. *)
Definition lookup_range {P : Policy} (version : string) : option Version_Expression :=
  if negb (version =? "")
  then drop_error (Version_Expression_Factory version)
  else drop_error (Version_Expression_Factory "0.0.0").

(** The last branch of the loop body of [GetEthereumClient]: the
    [Details] of the entry of [Blockchains] under [chainName], returned
    with a nil error. *)
Definition ethereum_client_details (chainName : string) (r : response)
    : step (outcome (string * option error)) :=
  match r with
  | GetEthereumClientResponse blockchains =>
      Done (Returned (bc_Details (match map_lookup chainName blockchains with
                                  | Some b => b
                                  | None => zero_BlockchainDef
                                  end), None))
  | _ => Done (Panicked "interface conversion")
  end.

(** The last branch of the loop body of [GetOrganization]: the entry of
    [orgs] under [org], or the error that there is none. *)
Definition organization_entry (org : string) (r : response)
    : step (outcome (option Organization * option error)) :=
  match r with
  | GetOrganizationResponse orgs =>
      match map_lookup org orgs with
      | None => Done (Returned (None, Some ("organization " ++ org ++ " not found")))
      | Some theOrg => Done (Returned (Some theOrg, None))
      end
  | _ => Done (Panicked "interface conversion")
  end.

(** The last branch of the loop body of [GetWorkload]. *)
Definition workload_selection {P : Policy} (searchVersion wVersion : string)
    (r : response) : step (outcome (option WorkloadDefinition * option error)) :=
  match r with
  | GetWorkloadsResponse workloadMetadata =>
      select_workload searchVersion wVersion workloadMetadata
  | _ => Done (Panicked "interface conversion")
  end.

(** The last branch of the loop body of [GetMicroservice]. *)
Definition microservice_selection {P : Policy} (searchVersion mVersion : string)
    (r : response) : step (outcome (option MicroserviceDefinition * option error)) :=
  match r with
  | GetMicroservicesResponse msMetadata =>
      select_microservice searchVersion mVersion msMetadata
  | _ => Done (Panicked "interface conversion")
  end.

(** [run], a lookup with the iteration bound and the trace as arguments,
    retries the GET request for [url] on transport failures and on
    nothing else:
    - when the first [n] calls are transport failures and call [n + 1] is
      not, the lookup has slept 10 seconds after each of the [n] failed
      requests and sent the request again, and it returns, for every
      bound above [n] and for no smaller one, the result of that last
      call, which carries no transport error;
    - it returns in no other way: whatever it returns is the result of
      such a call;
    - when every round trip is a transport failure and the request for
      [url] can be built, it returns for no bound. *)
Definition retries_until_settled {W : World} {A : Type}
    (run : nat -> trace -> option (outcome (A * option error) * trace))
    (url id token : string) (resp0 : response) (zero : A)
    (onOk : response -> step (outcome (A * option error))) : Prop :=
  (forall n tr iv tr',
      settles (get_request url id token) n tr resp0 iv tr' ->
      r_tpErr iv = None
      /\ sleeps tr' = (sleeps tr ++ repeat 10 n)%list
      /\ (exists last,
             tr' = (tr ++ retries (new_request "GET" url id token "") n ++ last)%list
             /\ (last = [] \/ last = [EvRequest (new_request "GET" url id token "")]))
      /\ (exists out, settled_result zero onOk iv out)
      /\ (forall out,
             settled_result zero onOk iv out ->
             forall fuel,
               run fuel tr = if (n <? fuel)%nat then Some (out, tr') else None))
  /\ (forall fuel tr out tr',
         run fuel tr = Some (out, tr') ->
         exists n iv,
           n < fuel
           /\ settles (get_request url id token) n tr resp0 iv tr'
           /\ settled_result zero onOk iv out)
  /\ (transport_always_fails ->
      http_NewRequest "GET" url = None ->
      forall fuel tr, run fuel tr = None).

(** ** Further scripted exchanges *)

Module MoreScenarios.

Import Scenario.

(** The Exchange rejects a heartbeat: status 201, code "bad". *)
Definition rejected_post : World :=
  scripted [reply 201 "rejected"]
           [("rejected", PostDeviceResponse "bad" "node acme/n1 not found")].

(** A workload whose stored version is no dotted number. *)
Definition unverifiable_version : World :=
  scripted [reply 200 "W"]
           [("W", GetWorkloadsResponse
                    [("acme/w_1.0.0_amd64", workload "1.0.0" one_deployment []);
                     ("acme/w_latest_amd64", workload "latest" one_deployment [])])].

(** A workload with one deployment, whose dependency exists. *)
Definition resolvable : World :=
  scripted [reply 200 "W"; reply 200 "M"]
           [("W", GetWorkloadsResponse
                    [("acme/w_1.0.0_amd64", workload "1.0.0" one_deployment [dependency_m])]);
            ("M", GetMicroservicesResponse [("acme/m_1.0.0_amd64", microservice "1.0.0")])].

Definition bluehorizon : BlockchainDef :=
  {| bc_Description := "test chain"; bc_DefinedBy := "acme/admin";
     bc_Details := "{chains:[]}"; bc_LastUpdated := "" |}.

(** One blockchain, named bluehorizon, is defined. *)
Definition one_blockchain : World :=
  scripted [reply 200 "B"]
           [("B", GetEthereumClientResponse [("bluehorizon", bluehorizon)])].

(** The range from 1.0.0, included, to 2.0.0, excluded. *)
Definition range_1_to_2 : SpecPolicy.range :=
  {| SpecPolicy.range_start := [1; 0; 0]; SpecPolicy.start_inclusive := true;
     SpecPolicy.range_end := Some [2; 0; 0]; SpecPolicy.end_inclusive := false;
     SpecPolicy.expression := "[1.0.0,2.0.0)" |}.

End MoreScenarios.

(** * Properties *)

(** ** The spec's versions and ranges, on examples *)

Example parse_version_1_10_0 : SpecPolicy.parse_version "1.10.0" = Some [1; 10; 0].
Proof. reflexivity. Qed.

Example cmp_1_9_lt_1_10 : SpecPolicy.cmp "1.9.0" "1.10.0" = (-1)%Z.
Proof. reflexivity. Qed.

Example cmp_missing_segment : SpecPolicy.cmp "1.2" "1.2.0" = 0%Z.
Proof. reflexivity. Qed.

Example parseRange_bare :
  option_map SpecPolicy.expression
    (match SpecPolicy.parseRange "1.0.0" with inr r => Some r | inl _ => None end)
  = Some "[1.0.0,INFINITY)".
Proof. reflexivity. Qed.

Example inRange_half_open :
  match SpecPolicy.parseRange "[1.0.0,2.0.0)" with
  | inr r => (SpecPolicy.inRange r "1.2.0", SpecPolicy.inRange r "2.0.0")
  | inl _ => (inl "", inl "")
  end = (inr true, inr false).
Proof. reflexivity. Qed.

Example isRange_full : SpecPolicy.isRange "[1.0.0,INFINITY)" = true
                       /\ SpecPolicy.isRange "1.0.0" = false
                       /\ SpecPolicy.isVersion "1.0.0" = true
                       /\ SpecPolicy.isVersion "[1.0.0,INFINITY)" = false.
Proof. repeat split; reflexivity. Qed.

(** ** Facts about package [strings] *)

Lemma prefix_refl (s : string) : String.prefix s s = true.
Proof.
  induction s as [|c s IH]; simpl; [reflexivity|].
  destruct (ascii_dec c c) as [_|Hne]; [exact IH | contradiction].
Qed.

Lemma Contains_unfold (s sub : string) :
  Contains s sub
  = String.prefix sub s
    || match s with
       | EmptyString => false
       | String _ s' => Contains s' sub
       end.
Proof. destruct s; reflexivity. Qed.

Lemma Contains_refl (s : string) : Contains s s = true.
Proof. rewrite Contains_unfold, prefix_refl. reflexivity. Qed.

Lemma Contains_app_skip (a b sub : string) :
  Contains b sub = true -> Contains (a ++ b) sub = true.
Proof.
  intros H. induction a as [|c a IH]; [exact H|].
  change (String c a ++ b) with (String c (a ++ b)).
  rewrite Contains_unfold, IH. apply orb_true_r.
Qed.

Lemma status_error_carries_body (method url : string) (status : Z) (outBytes : string) :
  Contains (status_error method url status outBytes) outBytes = true.
Proof.
  unfold status_error. do 7 apply Contains_app_skip. apply Contains_refl.
Qed.

(** ** [InvokeExchange]: requests, status codes and error classes *)



Section InvokeExchangeFacts.

Context {W : World}.

Lemma check_response_no_transport method url params v r :
  r_tpErr (check_response method url params v r) = None.
Proof.
  destruct r; try reflexivity.
  simpl. destruct (negb (Code =? "ok")); reflexivity.
Qed.

Lemma decode_response_no_transport method url params v outBytes r :
  r_tpErr (decode_response method url params v outBytes r) = None.
Proof.
  unfold decode_response. destruct (json_Unmarshal outBytes r); [reflexivity|].
  apply check_response_no_transport.
Qed.

Lemma InvokeExchange_sent tr method url user pw params r0 requestBody :
  method <> "" -> url <> "" ->
  marshal_params params = inr requestBody ->
  http_NewRequest method url = None ->
  InvokeExchange tr method url user pw params (Some r0)
  = (after_round_trip method url params r0
       (httpClient_Do tr (new_request method url user pw requestBody)),
     (tr ++ [EvRequest (new_request method url user pw requestBody)])%list).
Proof.
  intros Hm Hu Hp Hn. unfold InvokeExchange, after_round_trip.
  destruct method as [|c m]; [contradiction|].
  destruct url as [|c' u]; [contradiction|].
  cbn [String.length Nat.eqb]. rewrite Hp, Hn.
  destruct (rt_outcome _); [destruct (isTimeout err)|]; reflexivity.
Qed.

(** A call either returns an application error before any request is
    sent, or sends exactly one request. *)
Lemma InvokeExchange_cases tr method url user pw params resp :
  (snd (InvokeExchange tr method url user pw params resp) = tr
   /\ r_tpErr (fst (InvokeExchange tr method url user pw params resp)) = None
   /\ r_err (fst (InvokeExchange tr method url user pw params resp)) <> None)
  \/ (exists r0 requestBody,
        resp = Some r0 /\ method <> "" /\ url <> ""
        /\ marshal_params params = inr requestBody
        /\ http_NewRequest method url = None).
Proof.
  unfold InvokeExchange.
  destruct method as [|c m]; [left; cbn; repeat split; discriminate|].
  destruct url as [|c' u]; [left; cbn; repeat split; discriminate|].
  cbn [String.length Nat.eqb].
  destruct resp as [r0|]; [|left; cbn; repeat split; discriminate].
  destruct (marshal_params params) as [e|requestBody] eqn:Hp;
    [left; cbn; repeat split; discriminate|].
  destruct (http_NewRequest _ _) eqn:Hn; [left; cbn; repeat split; discriminate|].
  right. exists r0, requestBody. repeat split; try discriminate; assumption.
Qed.

Lemma trace_not_extended (tr : trace) (e : event) : tr <> (tr ++ [e])%list.
Proof.
  intros H. apply (f_equal (@List.length event)) in H.
  rewrite List.length_app in H. simpl in H. lia.
Qed.

Lemma InvokeExchange_request tr method url user pw params resp req :
  snd (InvokeExchange tr method url user pw params resp) = (tr ++ [EvRequest req])%list ->
  exists r0 requestBody,
    resp = Some r0 /\ method <> "" /\ url <> ""
    /\ marshal_params params = inr requestBody
    /\ http_NewRequest method url = None
    /\ req = new_request method url user pw requestBody.
Proof.
  intros H.
  destruct (InvokeExchange_cases tr method url user pw params resp)
    as [[Htr _]|(r0 & requestBody & -> & Hm & Hu & Hp & Hn)].
  - rewrite Htr in H. exfalso. eapply trace_not_extended, H.
  - exists r0, requestBody. repeat split; try assumption.
    rewrite (InvokeExchange_sent tr _ _ user pw _ r0 _ Hm Hu Hp Hn) in H.
    cbn [snd] in H. apply app_inj_tail in H. destruct H as [_ H].
    now inversion H.
Qed.

(** After a round trip, the transport result is set exactly for a
    transport failure, and then the application result is nil. *)
Lemma after_round_trip_transport method url params r0 rt :
  (r_tpErr (after_round_trip method url params r0 rt) <> None
   <-> transport_round_trip rt = true)
  /\ (r_tpErr (after_round_trip method url params r0 rt) <> None
      -> r_err (after_round_trip method url params r0 rt) = None).
Proof.
  unfold after_round_trip, transport_round_trip.
  destruct (rt_outcome rt) as [e|httpResp].
  - destruct (isTimeout e); cbn; split; try split; congruence.
  - unfold handle_response.
    assert (Hread : match Body httpResp with Some _ => @None error | None => None end = None)
      by (destruct (Body httpResp); reflexivity).
    rewrite Hread.
    destruct ((StatusCode httpResp =? StatusInternalServerError)%Z
              && Contains (body_bytes httpResp) "timed out").
    + cbn; split; try split; congruence.
    + repeat match goal with
             | |- context [if ?c then _ else _] => destruct c
             end;
        try rewrite decode_response_no_transport;
        cbn; split; try split; congruence.
Qed.

End InvokeExchangeFacts.

Section InvokeExchangeClaims.

Context {W : World}.

(** C5 (as amended): for a completed HTTP exchange of a [GET], [PUT],
    [POST], [PATCH] or [DELETE] call, a response with status 500 whose
    body contains "timed out" yields a transport error (second result);
    otherwise a status of the matrix GET -> 200 or 404, PUT/POST/PATCH ->
    201, DELETE -> 204 is accepted (the call goes on to decode the body,
    or returns no error for [DELETE]), and any other status yields an
    application error (first result) whose message carries the response
    body. *)
Theorem InvokeExchange_status_matrix :
  forall tr method url user pw params r0 requestBody httpResp unread_v,
    In method ["GET"; "PUT"; "POST"; "PATCH"; "DELETE"] ->
    url <> "" ->
    marshal_params params = inr requestBody ->
    http_NewRequest method url = None ->
    httpClient_Do tr (new_request method url user pw requestBody)
    = {| rt_outcome := DoResponse httpResp; rt_unread := unread_v |} ->
    let iv := fst (InvokeExchange tr method url user pw params (Some r0)) in
    let status := StatusCode httpResp in
    let outBytes := body_bytes httpResp in
    if (status =? 500)%Z && Contains outBytes "timed out"
    then r_err iv = None /\ r_tpErr iv <> None
    else if accepted_status method status
         then iv = (if method =? "DELETE" then no_error r0
                    else decode_response method url params unread_v outBytes r0)
         else r_err iv = Some (status_error method url status outBytes)
              /\ r_tpErr iv = None
              /\ Contains (status_error method url status outBytes) outBytes = true.
Proof.
  intros tr method url user pw params r0 requestBody httpResp unread_v
         Hin Hu Hp Hn Hdo iv status outBytes.
  assert (Hm : method <> "").
  { intros ->. simpl in Hin. intuition discriminate. }
  subst iv. rewrite (InvokeExchange_sent tr _ _ user pw _ r0 _ Hm Hu Hp Hn).
  cbn [fst]. unfold after_round_trip. rewrite Hdo. cbn [rt_outcome rt_unread].
  unfold handle_response. fold outBytes. fold status.
  assert (Hread : match Body httpResp with Some _ => @None error | None => None end = None)
    by (destruct (Body httpResp); reflexivity).
  rewrite Hread. unfold StatusInternalServerError.
  destruct ((status =? 500)%Z && Contains outBytes "timed out") eqn:Hto.
  - split; [reflexivity | discriminate].
  - unfold accepted_status, StatusOK, StatusNotFound, StatusCreated, StatusNoContent.
    simpl in Hin.
    destruct Hin as [<-|[<-|[<-|[<-|[<-|[]]]]]]; cbn [String.eqb Ascii.eqb Bool.eqb orb andb negb];
      match goal with
      | |- context [(status =? ?a)%Z || (status =? ?b)%Z] =>
          destruct (status =? a)%Z; destruct (status =? b)%Z
      | |- context [(status =? ?a)%Z] => destruct (status =? a)%Z
      end; cbn [orb andb negb];
      first [ reflexivity
            | repeat split; apply status_error_carries_body ].
Qed.

(** C6 (as amended): when reading the response body reports no error,
    [InvokeExchange] returns a transport error (second result) exactly
    when it sent a request whose round trip failed with an error text
    that, lower-cased, contains "time" and "out", or came back with
    status 500 and a body containing "timed out"; a transport error never
    comes with an application error, so every other failure is an
    application error (first result). *)
Theorem InvokeExchange_transport_classification :
  forall tr method url user pw params resp,
    (forall req httpResp b e,
        rt_outcome (httpClient_Do tr req) = DoResponse httpResp ->
        Body httpResp = Some (b, e) -> e = None) ->
    let iv := fst (InvokeExchange tr method url user pw params resp) in
    let tr' := snd (InvokeExchange tr method url user pw params resp) in
    (r_tpErr iv <> None
     <-> exists req, tr' = (tr ++ [EvRequest req])%list
                     /\ transport_round_trip (httpClient_Do tr req) = true)
    /\ (r_tpErr iv <> None -> r_err iv = None).
Proof.
  intros tr method url user pw params resp _ iv tr'. subst iv tr'.
  destruct (InvokeExchange_cases tr method url user pw params resp)
    as [(Htr & Htp & Herr)|(r0 & requestBody & -> & Hm & Hu & Hp & Hn)].
  - rewrite Htr, Htp. split.
    + split; [congruence|]. intros (req & H & _).
      exfalso. eapply trace_not_extended, H.
    + congruence.
  - rewrite (InvokeExchange_sent tr _ _ user pw _ r0 _ Hm Hu Hp Hn). cbn [fst snd].
    set (req := new_request method url user pw requestBody).
    pose proof (after_round_trip_transport method url params r0 (httpClient_Do tr req)) as Hkey.
    destruct Hkey as [Hiff Himp]. split.
    + rewrite Hiff. split.
      * intros H. exists req. split; [reflexivity | exact H].
      * intros (req' & Heq & H). apply app_inj_tail in Heq.
        destruct Heq as [_ Heq]. inversion Heq; subst. exact H.
    + exact Himp.
Qed.

(** C7 (as amended): every request that [InvokeExchange] sends carries
    [Accept: application/json]; it carries
    [Content-Type: application/json] exactly when the method is not
    [GET], whether or not it has a body; and it carries an
    [Authorization] header, with the value ["Basic " + user + ":" + pw],
    exactly when both [user] and [pw] are non-empty. *)
Theorem InvokeExchange_request_headers :
  forall tr method url user pw params resp req,
    snd (InvokeExchange tr method url user pw params resp) = (tr ++ [EvRequest req])%list ->
    In ("Accept", "application/json") (Header req)
    /\ (In ("Content-Type", "application/json") (Header req) <-> method <> "GET")
    /\ (forall v, In ("Authorization", v) (Header req)
                  <-> (user <> "" /\ pw <> "" /\ v = "Basic " ++ user ++ ":" ++ pw)).
Proof.
  intros tr method url user pw params resp req H.
  apply InvokeExchange_request in H.
  destruct H as (r0 & requestBody & _ & _ & _ & _ & _ & ->).
  cbn [new_request Header]. unfold add_headers.
  split; [left; reflexivity|]. split.
  - destruct (String.eqb_spec method "GET") as [Hg|Hg]; cbn [negb app].
    + split; [|congruence]. intros H. exfalso.
      destruct H as [H|H]; [discriminate H|].
      destruct (negb (user =? "") && negb (pw =? "")); cbn in H;
        intuition discriminate.
    + split; [intros _; exact Hg|]. intros _. right. left. reflexivity.
  - intros v. split.
    + intros H. cbn [app In] in H. destruct H as [H|H]; [discriminate H|].
      apply in_app_or in H. destruct H as [H|H].
      * destruct (negb (method =? "GET")); cbn in H; intuition discriminate.
      * destruct (String.eqb_spec user ""), (String.eqb_spec pw "");
          cbn in H; try contradiction.
        destruct H as [H|[]]. inversion H; subst; auto.
    + intros (Ha & Hb & ->). cbn [app In]. right. apply in_or_app. right.
      destruct (String.eqb_spec user ""); [contradiction|].
      destruct (String.eqb_spec pw ""); [contradiction|].
      left. reflexivity.
Qed.

End InvokeExchangeClaims.

(** ** Concrete runs of [InvokeExchange] *)

Module InvokeExchangeRuns.

Import Scenario.

(** A [GET] that is answered with status 500 and a body containing
    "timed out" returns a transport error, not an application error,
    although 500 is not in the matrix. *)
Lemma status_500_timed_out_is_transport :
  accepted_status "GET" 500 = false
  /\ r_err (fst (InvokeExchange (W := timed_out_500) [] "GET" exchange_url "n1" "tok"
                                None (Some (GetOrganizationResponse [])))) = None
  /\ r_tpErr (fst (InvokeExchange (W := timed_out_500) [] "GET" exchange_url "n1" "tok"
                                  None (Some (GetOrganizationResponse [])))) <> None.
Proof. vm_compute. repeat split; discriminate. Qed.

Lemma InvokeExchange_status_matrix_witness :
  r_err (fst (InvokeExchange (W := forbidden_403) [] "GET" exchange_url "n1" "tok"
                             None (Some (GetOrganizationResponse []))))
  = Some (status_error "GET" exchange_url 403 "invalid credentials")
  /\ r_tpErr (fst (InvokeExchange (W := forbidden_403) [] "GET" exchange_url "n1" "tok"
                                  None (Some (GetOrganizationResponse [])))) = None
  /\ Contains (status_error "GET" exchange_url 403 "invalid credentials")
              "invalid credentials" = true.
Proof.
  apply (InvokeExchange_status_matrix (W := forbidden_403) [] "GET" exchange_url "n1" "tok"
           None (GetOrganizationResponse []) "" 
           {| StatusCode := 403; Body := Some ("invalid credentials", None) |} "").
  - simpl. left. reflexivity.
  - discriminate.
  - reflexivity.
  - reflexivity.
  - reflexivity.
Defined.

(** A refused connection and a failed name lookup are reported as
    application errors: their texts do not contain "time" and "out". *)
Lemma connection_refused_is_application :
  r_tpErr (fst (InvokeExchange (W := connection_refused) [] "GET" exchange_url "n1" "tok"
                               None (Some (GetOrganizationResponse [])))) = None
  /\ r_err (fst (InvokeExchange (W := connection_refused) [] "GET" exchange_url "n1" "tok"
                                None (Some (GetOrganizationResponse [])))) <> None
  /\ r_tpErr (fst (InvokeExchange (W := no_such_host) [] "GET" exchange_url "n1" "tok"
                                  None (Some (GetOrganizationResponse [])))) = None
  /\ r_err (fst (InvokeExchange (W := no_such_host) [] "GET" exchange_url "n1" "tok"
                                None (Some (GetOrganizationResponse [])))) <> None.
Proof. vm_compute. repeat split; discriminate. Qed.

Lemma InvokeExchange_transport_classification_witness :
  (r_tpErr (fst (InvokeExchange (W := timed_out_500) [] "GET" exchange_url "n1" "tok"
                                None (Some (GetOrganizationResponse [])))) <> None
   <-> exists req,
        snd (InvokeExchange (W := timed_out_500) [] "GET" exchange_url "n1" "tok"
                            None (Some (GetOrganizationResponse [])))
        = ([] ++ [EvRequest req])%list
        /\ transport_round_trip (httpClient_Do (World := timed_out_500) [] req) = true)
  /\ (r_tpErr (fst (InvokeExchange (W := timed_out_500) [] "GET" exchange_url "n1" "tok"
                                   None (Some (GetOrganizationResponse [])))) <> None
      -> r_err (fst (InvokeExchange (W := timed_out_500) [] "GET" exchange_url "n1" "tok"
                                    None (Some (GetOrganizationResponse [])))) = None).
Proof.
  apply (InvokeExchange_transport_classification (W := timed_out_500)
           [] "GET" exchange_url "n1" "tok" None (Some (GetOrganizationResponse []))).
  intros req httpResp b e H Hb. cbn in H. inversion H; subst httpResp.
  cbn in Hb. inversion Hb. reflexivity.
Defined.

(** A [GET] with a request body is sent without a [Content-Type]
    header. *)
Lemma GET_with_body_has_no_Content_Type :
  exists req,
    snd (InvokeExchange (W := answers_empty) [] "GET" exchange_url "n1" "tok"
                        (Some some_params) (Some (GetOrganizationResponse [])))
    = [EvRequest req]
    /\ RequestBody req = "{}"
    /\ ~ In ("Content-Type", "application/json") (Header req).
Proof.
  eexists. split; [vm_compute; reflexivity|]. split; [reflexivity|].
  cbn. intuition discriminate.
Qed.

Lemma InvokeExchange_request_headers_witness :
  let req := new_request "POST" exchange_url "n1" "tok" "{}" in
  In ("Accept", "application/json") (Header req)
  /\ (In ("Content-Type", "application/json") (Header req) <-> "POST" <> "GET")
  /\ (forall v, In ("Authorization", v) (Header req)
                <-> ("n1" <> "" /\ "tok" <> "" /\ v = "Basic " ++ "n1" ++ ":" ++ "tok")).
Proof.
  apply (InvokeExchange_request_headers (W := answers_empty) [] "POST" exchange_url
           "n1" "tok" (Some some_params) (Some (GetOrganizationResponse []))).
  reflexivity.
Defined.

End InvokeExchangeRuns.

(** ** The retry loop *)

Lemma settles_final invoke n tr resp iv tr' :
  settles invoke n tr resp iv tr' -> exists t r, invoke t r = (iv, tr').
Proof.
  induction 1 as [tr resp iv tr1 Hinv _ | n tr resp iv0 tr1 iv tr' _ _ _ _ IH].
  - exists tr, resp. exact Hinv.
  - exact IH.
Qed.

Section RetryLoop.

Context {A : Type}.
Variable invoke : trace -> response -> invoked * trace.
Variable onErr : error -> A.
Variable onOk : response -> step A.

Lemma retry_loop_settles n tr resp iv tr' :
  settles invoke n tr resp iv tr' ->
  forall fuel, n < fuel ->
    retry_loop fuel invoke onErr onOk tr resp
    = match r_err iv with
      | Some e => Some (onErr e, tr')
      | None =>
          match onOk (r_resp iv) with
          | Done a => Some (a, tr')
          | Continue => retry_loop (fuel - S n) invoke onErr onOk tr' (r_resp iv)
          end
      end.
Proof.
  induction 1 as [tr resp iv tr1 Hinv Hset | n tr resp iv0 tr1 iv tr' Hinv Herr Htp _ IH];
    intros fuel Hfuel; (destruct fuel as [|fuel]; [lia|]); cbn [retry_loop]; rewrite Hinv.
  - destruct (r_err iv) as [e|]; [reflexivity|].
    destruct Hset as [Hset|Hset]; [congruence|]. rewrite Hset.
    rewrite Nat.sub_succ, Nat.sub_0_r. reflexivity.
  - rewrite Herr. destruct (r_tpErr iv0); [|congruence].
    rewrite IH by lia. reflexivity.
Qed.

Lemma retry_loop_returns fuel :
  (forall r, onOk r <> Continue) ->
  forall tr resp a tr',
    retry_loop fuel invoke onErr onOk tr resp = Some (a, tr') ->
    exists n iv,
      n < fuel /\ settles invoke n tr resp iv tr'
      /\ match r_err iv with
         | Some e => a = onErr e
         | None => r_tpErr iv = None /\ onOk (r_resp iv) = Done a
         end.
Proof.
  intros Hok. induction fuel as [|fuel IH]; intros tr resp a tr' H; [discriminate|].
  cbn [retry_loop] in H. destruct (invoke tr resp) as [iv tr1] eqn:Hinv.
  destruct (r_err iv) as [e|] eqn:Herr.
  - inversion H; subst. exists 0, iv. split; [lia|]. split.
    + apply settles_now; [exact Hinv | left; congruence].
    + rewrite Herr. reflexivity.
  - destruct (r_tpErr iv) as [t|] eqn:Htp.
    + apply IH in H. destruct H as (n & iv' & Hn & Hset & Hres).
      exists (S n), iv'. split; [lia|]. split; [|exact Hres].
      eapply settles_later; eauto. congruence.
    + destruct (onOk (r_resp iv)) as [a'|] eqn:Hk; [|exfalso; eapply Hok; eauto].
      inversion H; subst. exists 0, iv. split; [lia|]. split.
      * apply settles_now; [exact Hinv | right; exact Htp].
      * rewrite Herr. split; [exact Htp | exact Hk].
Qed.

Lemma retry_loop_diverges :
  (forall t r, r_err (fst (invoke t r)) = None /\ r_tpErr (fst (invoke t r)) <> None) ->
  forall fuel tr resp, retry_loop fuel invoke onErr onOk tr resp = None.
Proof.
  intros Hdown. induction fuel as [|fuel IH]; intros tr resp; [reflexivity|].
  cbn [retry_loop]. destruct (Hdown tr resp) as [Herr Htp].
  destruct (invoke tr resp) as [iv tr1]. cbn [fst] in Herr, Htp.
  rewrite Herr. destruct (r_tpErr iv); [apply IH | congruence].
Qed.

Lemma retry_loop_not_before n tr resp iv tr' :
  settles invoke n tr resp iv tr' ->
  forall fuel, fuel <= n -> retry_loop fuel invoke onErr onOk tr resp = None.
Proof.
  induction 1 as [tr resp iv tr1 Hinv Hset | n tr resp iv0 tr1 iv tr' Hinv Herr Htp _ IH];
    intros fuel Hfuel; (destruct fuel as [|fuel]; [reflexivity|]); [lia|].
  cbn [retry_loop]. rewrite Hinv, Herr. destruct (r_tpErr iv0); [|congruence].
  apply IH. lia.
Qed.

Lemma settles_sleeps n tr resp iv tr' :
  (forall t r, sleeps (snd (invoke t r)) = sleeps t) ->
  settles invoke n tr resp iv tr' ->
  sleeps tr' = (sleeps tr ++ repeat 10 n)%list.
Proof.
  intros Hquiet. induction 1 as [tr resp iv tr1 Hinv _ | n tr resp iv0 tr1 iv tr' Hinv _ _ _ IH].
  - specialize (Hquiet tr resp). rewrite Hinv in Hquiet. cbn in *.
    rewrite app_nil_r. exact Hquiet.
  - specialize (Hquiet tr resp). rewrite Hinv in Hquiet. cbn [snd] in Hquiet.
    rewrite IH. unfold sleeps at 1. rewrite flat_map_app. fold (sleeps tr1).
    rewrite Hquiet. cbn [flat_map app repeat]. rewrite <- app_assoc. reflexivity.
Qed.

End RetryLoop.

(** ** The selection of the highest version *)

Lemma Compare_lt_iff (a b : string) :
  Compare a b = (-1)%Z <-> String_as_OT.lt a b.
Proof.
  rewrite <- String_as_OT.cmp_lt. unfold Compare, String_as_OT.cmp.
  destruct (String.compare a b); split; intros H; congruence.
Qed.

Lemma Compare_refl (a : string) : Compare a a = 0%Z.
Proof.
  unfold Compare.
  assert (H : String.compare a a = Eq) by (apply String_as_OT.cmp_eq; reflexivity).
  rewrite H. reflexivity.
Qed.

Lemma Compare_lt_trans (a b c : string) :
  Compare a b = (-1)%Z -> Compare b c = (-1)%Z -> Compare a c = (-1)%Z.
Proof.
  rewrite !Compare_lt_iff. apply String_as_OT.lt_trans.
Qed.

Lemma Compare_lt_asym (a b : string) :
  Compare a b = (-1)%Z -> Compare b a <> (-1)%Z.
Proof.
  unfold Compare. rewrite (String.compare_antisym b a).
  destruct (String.compare a b); cbn; congruence.
Qed.

Lemma Compare_empty_lt (v : string) : Compare "" v <> (-1)%Z -> v = "".
Proof. destruct v; [reflexivity|]. cbn. congruence. Qed.

Section Selection.

Context {P : Policy} {D : Type}.
Variable version : D -> string.
Variable vr : Version_Expression.

(** The loop keeps in [highest] a version that no candidate inside the
    range exceeds byte-wise, and in [res] the definition it came from. *)
Lemma highest_by_invariant l :
  forall highest res r,
    highest_by version (Some vr) l highest res = Returned (inr r) ->
    exists h,
      ((h = highest /\ r = res)
       \/ ((exists k, In (k, r) l)
           /\ Is_within_range vr (version r) = inr true
           /\ version r = h
           /\ Compare highest h = (-1)%Z))
      /\ (forall k d, In (k, d) l ->
                      Is_within_range vr (version d) = inr true ->
                      Compare h (version d) <> (-1)%Z).
Proof.
  induction l as [|[k0 d0] rest IH]; intros highest res r H.
  - cbn in H. inversion H; subst. exists highest. split; [left; auto|].
    intros k d [].
  - cbn [highest_by] in H.
    destruct (Is_within_range vr (version d0)) as [e|[|]] eqn:Hin; [discriminate| |].
    + destruct (Compare highest (version d0) =? -1)%Z eqn:Hcmp.
      * apply Z.eqb_eq in Hcmp. apply IH in H.
        destruct H as (h & Hsel & Hmax). exists h. split.
        -- right. destruct Hsel as [[-> ->]|((k & Hk) & Hr & Hv & Hlt)].
           ++ split; [exists k0; left; reflexivity|]. auto.
           ++ split; [exists k; right; exact Hk|]. split; [exact Hr|].
              split; [exact Hv|]. eapply Compare_lt_trans; eauto.
        -- intros k d [Heq|Hd] Hd_in.
           ++ inversion Heq; subst k d.
              destruct Hsel as [[-> _]|(_ & _ & _ & Hlt)].
              ** rewrite Compare_refl. discriminate.
              ** apply Compare_lt_asym, Hlt.
           ++ eapply Hmax; eauto.
      * apply Z.eqb_neq in Hcmp. apply IH in H.
        destruct H as (h & Hsel & Hmax). exists h. split.
        -- destruct Hsel as [Hsame|((k & Hk) & Hr & Hv & Hlt)]; [left; exact Hsame|].
           right. split; [exists k; right; exact Hk|]. auto.
        -- intros k d [Heq|Hd] Hd_in.
           ++ inversion Heq; subst k d.
              destruct Hsel as [[-> _]|(_ & _ & _ & Hlt)]; [exact Hcmp|].
              intros Hlt'. apply Hcmp. eapply Compare_lt_trans; eauto.
           ++ eapply Hmax; eauto.
    + apply IH in H. destruct H as (h & Hsel & Hmax). exists h. split.
      * destruct Hsel as [Hsame|((k & Hk) & Hr & Hv & Hlt)]; [left; exact Hsame|].
        right. split; [exists k; right; exact Hk|]. auto.
      * intros k d [Heq|Hd] Hd_in.
        -- inversion Heq; subst k d. congruence.
        -- eapply Hmax; eauto.
Qed.

(** What the loop selects, started as the code starts it: a candidate
    inside the range whose version no other candidate inside the range
    exceeds in the byte-wise order of [strings.Compare], or the initial
    definition when every candidate inside the range has an empty
    version. *)
Lemma highest_by_bytewise_maximum l zero r :
  highest_by version (Some vr) l "" zero = Returned (inr r) ->
  (r = zero
   /\ forall k d, In (k, d) l -> Is_within_range vr (version d) = inr true ->
                  version d = "")
  \/ ((exists k, In (k, r) l)
      /\ Is_within_range vr (version r) = inr true
      /\ forall k d, In (k, d) l -> Is_within_range vr (version d) = inr true ->
                     Compare (version r) (version d) <> (-1)%Z).
Proof.
  intros H. apply highest_by_invariant in H.
  destruct H as (h & [[-> ->]|(Hk & Hr & Hv & _)] & Hmax).
  - left. split; [reflexivity|]. intros k d Hd Hin.
    apply Compare_empty_lt. eapply Hmax; eauto.
  - right. subst h. auto.
Qed.

End Selection.

Section SelectionOfDefinitions.

Context {P : Policy}.

Lemma highest_workload_by vRange l highest res :
  highest_workload vRange l highest res = highest_by Version vRange l highest res.
Proof.
  revert highest res. induction l as [|[k d] rest IH]; intros; cbn; [reflexivity|].
  destruct vRange; [|reflexivity].
  destruct (Is_within_range _ _) as [e|[|]]; [reflexivity| |apply IH].
  destruct (Compare highest (Version d) =? -1)%Z; apply IH.
Qed.

Lemma highest_microservice_by vRange l highest res :
  highest_microservice vRange l highest res = highest_by ms_Version vRange l highest res.
Proof.
  revert highest res. induction l as [|[k d] rest IH]; intros; cbn; [reflexivity|].
  destruct vRange; [|reflexivity].
  destruct (Is_within_range _ _) as [e|[|]]; [reflexivity| |apply IH].
  destruct (Compare highest (ms_Version d) =? -1)%Z; apply IH.
Qed.

(** Without a specific version, [GetMicroservice] never answers with a
    nil definition and a nil error. *)
Lemma select_microservice_never_nil mVersion msMetadata :
  select_microservice "" mVersion msMetadata <> Done (Returned (None, None)).
Proof.
  unfold select_microservice. cbn [String.eqb negb].
  destruct (highest_microservice _ msMetadata "" zero_MicroserviceDefinition)
    as [[e|m]|p]; discriminate.
Qed.

End SelectionOfDefinitions.

(** ** The lookup functions *)

Section LookupFacts.

Context {W : World} {P : Policy}.

Lemma select_workload_done sv wv ws : select_workload sv wv ws <> Continue.
Proof.
  unfold select_workload.
  destruct (negb (sv =? "")).
  - destruct ws as [|[k w] [|kw ws]]; cbn; discriminate.
  - destruct (List.length ws =? 0)%nat; [discriminate|].
    destruct (highest_workload _ ws "" zero_WorkloadDefinition) as [[e|w]|p]; discriminate.
Qed.

Lemma select_microservice_done sv mv ms : select_microservice sv mv ms <> Continue.
Proof.
  unfold select_microservice.
  destruct (negb (sv =? "")).
  - destruct ms as [|[k m] [|km ms]]; cbn; discriminate.
  - destruct (highest_microservice _ ms "" zero_MicroserviceDefinition) as [[e|m]|p];
      discriminate.
Qed.

Lemma get_request_exclusive url id token t r :
  r_tpErr (fst (get_request url id token t r)) <> None ->
  r_err (fst (get_request url id token t r)) = None.
Proof.
  unfold get_request.
  destruct (InvokeExchange_cases t "GET" url id token None (Some r))
    as [(_ & Htp & _)|(r0 & requestBody & Hr & Hm & Hu & Hp & Hn)].
  - congruence.
  - inversion Hr; subst r0.
    rewrite (InvokeExchange_sent t _ _ id token _ r _ Hm Hu Hp Hn). cbn [fst].
    apply after_round_trip_transport.
Qed.

Lemma get_request_quiet url id token t r :
  sleeps (snd (get_request url id token t r)) = sleeps t.
Proof.
  unfold get_request.
  destruct (InvokeExchange_cases t "GET" url id token None (Some r))
    as [(Htr & _)|(r0 & requestBody & Hr & Hm & Hu & Hp & Hn)].
  - rewrite Htr. reflexivity.
  - inversion Hr; subst r0.
    rewrite (InvokeExchange_sent t _ _ id token _ r _ Hm Hu Hp Hn). cbn [snd].
    unfold sleeps. rewrite flat_map_app. cbn. apply app_nil_r.
Qed.

Lemma get_request_down url id token t r :
  transport_always_fails ->
  url <> "" ->
  http_NewRequest "GET" url = None ->
  r_err (fst (get_request url id token t r)) = None
  /\ r_tpErr (fst (get_request url id token t r)) <> None.
Proof.
  intros Hdown Hu Hn. unfold get_request.
  rewrite (InvokeExchange_sent t "GET" url id token None r ""); try assumption;
    try reflexivity; try discriminate.
  cbn [fst].
  pose proof (after_round_trip_transport "GET" url None r
                (httpClient_Do t (new_request "GET" url id token ""))) as [Hiff Himp].
  assert (Htp : r_tpErr (after_round_trip "GET" url None r
                           (httpClient_Do t (new_request "GET" url id token ""))) <> None)
    by (apply Hiff, Hdown).
  split; [apply Himp, Htp | exact Htp].
Qed.

Lemma get_request_sent url id token t r :
  url <> "" -> http_NewRequest "GET" url = None ->
  get_request url id token t r
  = (after_round_trip "GET" url None r
       (httpClient_Do t (new_request "GET" url id token "")),
     (t ++ [EvRequest (new_request "GET" url id token "")])%list).
Proof.
  intros Hu Hn. unfold get_request.
  apply InvokeExchange_sent; [discriminate | exact Hu | reflexivity | exact Hn].
Qed.

Lemma get_request_trace url id token t r :
  (snd (get_request url id token t r) = t
   /\ r_tpErr (fst (get_request url id token t r)) = None)
  \/ snd (get_request url id token t r)
     = (t ++ [EvRequest (new_request "GET" url id token "")])%list.
Proof.
  unfold get_request.
  destruct (InvokeExchange_cases t "GET" url id token None (Some r))
    as [(Htr & Htp & _)|(r0 & requestBody & Hr & Hm & Hu & Hp & Hn)].
  - left. split; assumption.
  - right. inversion Hr; subst r0. cbn in Hp. inversion Hp; subst requestBody.
    rewrite (InvokeExchange_sent t "GET" url id token None r "" Hm Hu eq_refl Hn).
    reflexivity.
Qed.

Lemma settles_trace url id token n tr resp iv tr' :
  settles (get_request url id token) n tr resp iv tr' ->
  exists last,
    tr' = (tr ++ retries (new_request "GET" url id token "") n ++ last)%list
    /\ (last = [] \/ last = [EvRequest (new_request "GET" url id token "")]).
Proof.
  induction 1 as [tr resp iv tr1 Hinv _ | n tr resp iv0 tr1 iv tr' Hinv _ Htp _ IH].
  - destruct (get_request_trace url id token tr resp) as [[Ht _]|Ht];
      rewrite Hinv in Ht; cbn [snd] in Ht; subst tr1.
    + exists []. split; [now rewrite !app_nil_r | left; reflexivity].
    + eexists. split; [reflexivity | right; reflexivity].
  - destruct IH as (last & -> & Hlast). exists last. split; [|exact Hlast].
    destruct (get_request_trace url id token tr resp) as [[_ Hn]|Ht];
      rewrite Hinv in *; cbn [fst snd] in *; [congruence|]. subst tr1.
    cbn [retries]. rewrite <- !app_assoc. reflexivity.
Qed.

Lemma settles_no_transport_error url id token n tr resp iv tr' :
  settles (get_request url id token) n tr resp iv tr' -> r_tpErr iv = None.
Proof.
  induction 1 as [tr resp iv tr1 Hinv Hset | n tr resp iv0 tr1 iv tr' _ _ _ _ IH];
    [|exact IH].
  destruct Hset as [Herr|Htp]; [|exact Htp].
  destruct (r_tpErr iv) eqn:Htp; [|reflexivity]. exfalso. apply Herr.
  pose proof (get_request_exclusive url id token tr resp) as Hx.
  rewrite Hinv in Hx. cbn [fst] in Hx. apply Hx. congruence.
Qed.

(** What the retry loop over [get_request] guarantees to its caller. *)
Lemma retry_get_request_settled {A : Type} url id token (zero : A)
    (onOk : response -> step (outcome (A * option error))) resp0 :
  (forall r, onOk r <> Continue) ->
  url <> "" ->
  retries_until_settled
    (fun fuel tr =>
       retry_loop fuel (get_request url id token)
                  (fun e => Returned (zero, Some e)) onOk tr resp0)
    url id token resp0 zero onOk.
Proof.
  intros Hok Hurl. split; [|split].
  - intros n tr iv tr' Hset.
    split; [eapply settles_no_transport_error, Hset|].
    split; [eapply settles_sleeps; [|exact Hset]; intros; apply get_request_quiet|].
    split; [eapply settles_trace, Hset|].
    split.
    + unfold settled_result. destruct (r_err iv) as [e|]; [eexists; reflexivity|].
      destruct (onOk (r_resp iv)) as [a|] eqn:Hk; [exists a; reflexivity|].
      exfalso. eapply Hok, Hk.
    + intros out Hout fuel. unfold settled_result in Hout.
      destruct (Nat.ltb_spec n fuel) as [Hlt|Hge].
      * rewrite (retry_loop_settles _ _ _ _ _ _ _ _ Hset fuel Hlt).
        destruct (r_err iv) as [e|]; [rewrite Hout; reflexivity|].
        rewrite Hout. reflexivity.
      * eapply retry_loop_not_before; [exact Hset | exact Hge].
  - intros fuel tr out tr' H. apply retry_loop_returns in H; [|exact Hok].
    destruct H as (n & iv & Hn & Hset & Hres). exists n, iv.
    split; [exact Hn|]. split; [exact Hset|].
    unfold settled_result. destruct (r_err iv); [exact Hres | apply Hres].
  - intros Hdown Hnew fuel tr. apply retry_loop_diverges. intros t r.
    apply get_request_down; assumption.
Qed.

Lemma append_not_empty (a b : string) : b <> "" -> a ++ b <> "".
Proof. intros Hb. destruct a; [exact Hb | discriminate]. Qed.

Lemma workload_targetURL_not_empty exURL wOrg wURL sv wArch :
  workload_targetURL exURL wOrg wURL sv wArch <> "".
Proof.
  unfold workload_targetURL. destruct (negb (sv =? ""));
    apply append_not_empty; discriminate.
Qed.

Lemma microservice_targetURL_not_empty exURL mOrg mURL sv mArch :
  microservice_targetURL exURL mOrg mURL sv mArch <> "".
Proof.
  unfold microservice_targetURL. destruct (negb (sv =? ""));
    apply append_not_empty; discriminate.
Qed.

End LookupFacts.

Section LookupClaims.

Context {W : World} {P : Policy}.

Lemma getSearchVersion_specific version :
  version <> "" -> IsVersionExpression version = false -> IsVersionString version = true ->
  getSearchVersion version = inr version.
Proof.
  intros Hne Hexp Hstr. unfold getSearchVersion.
  apply String.eqb_neq in Hne. rewrite Hne, Hexp, Hstr. reflexivity.
Qed.

Lemma getSearchVersion_range version :
  version = "" \/ IsVersionExpression version = true ->
  getSearchVersion version = inr "".
Proof.
  intros [->|H]; unfold getSearchVersion; [reflexivity|].
  rewrite H, orb_true_r. reflexivity.
Qed.

(** C3: called with a specific version (a valid version string that is no
    range), [GetWorkload] and [GetMicroservice] return the definition when
    the answer of the Exchange holds exactly one record, and the error
    "expecting 1 result ... got N" when it holds none or several. *)
Theorem specific_version_expects_one_result :
  forall (version : string) (n fuel : nat),
    version <> "" ->
    IsVersionExpression version = false ->
    IsVersionString version = true ->
    n < fuel ->
    (forall tr wURL wOrg wArch exURL id token iv tr' workloadMetadata,
        settles (get_request (workload_targetURL exURL wOrg wURL version wArch) id token)
                n tr (GetWorkloadsResponse []) iv tr' ->
        r_err iv = None ->
        r_resp iv = GetWorkloadsResponse workloadMetadata ->
        GetWorkload fuel tr wURL wOrg version wArch exURL id token
        = Some (Returned
                  match workloadMetadata with
                  | [(_, workloadDef)] => (Some workloadDef, None)
                  | _ => (None, Some ("expecting 1 result in GET workloads response, got "
                                      ++ utoa (List.length workloadMetadata)))
                  end, tr'))
    /\ (forall tr mURL mOrg mArch exURL id token iv tr' msMetadata,
          settles (get_request (microservice_targetURL exURL mOrg mURL version mArch) id token)
                  n tr (GetMicroservicesResponse []) iv tr' ->
          r_err iv = None ->
          r_resp iv = GetMicroservicesResponse msMetadata ->
          GetMicroservice fuel tr mURL mOrg version mArch exURL id token
          = Some (Returned
                    match msMetadata with
                    | [(_, msDef)] => (Some msDef, None)
                    | _ => (None, Some ("expecting 1 result in GET microservces response, got "
                                        ++ utoa (List.length msMetadata)))
                    end, tr')).
Proof.
  intros version n fuel Hne Hexp Hstr Hfuel.
  pose proof (getSearchVersion_specific version Hne Hexp Hstr) as Hsv.
  assert (Hnb : negb (version =? "") = true)
    by (apply String.eqb_neq in Hne; rewrite Hne; reflexivity).
  split.
  - intros tr wURL wOrg wArch exURL id token iv tr' ws Hset Herr Hresp.
    unfold GetWorkload. rewrite Hsv.
    rewrite (retry_loop_settles _ _ _ _ _ _ _ _ Hset fuel Hfuel), Herr, Hresp.
    unfold select_workload. rewrite Hnb.
    destruct ws as [|[k w] [|kw ws]]; reflexivity.
  - intros tr mURL mOrg mArch exURL id token iv tr' ms Hset Herr Hresp.
    unfold GetMicroservice. rewrite Hsv.
    rewrite (retry_loop_settles _ _ _ _ _ _ _ _ Hset fuel Hfuel), Herr, Hresp.
    unfold select_microservice. rewrite Hnb.
    destruct ms as [|[k m] [|km ms]]; reflexivity.
Qed.

(** C8: [GetEthereumClient], [GetOrganization], [GetWorkload] and
    [GetMicroservice] never return a transport failure of the Exchange
    call to their caller.  For each of them: when the first [n] calls are
    transport failures and call [n + 1] is not, the function has slept 10
    seconds after each failed request and sent the request again, and it
    returns, once the iteration bound is above [n] and not before, the
    application error of that last call or what its last branch makes of
    the decoded response; it returns in no other way; and when every
    round trip is a transport failure and the request can be built, it
    returns for no iteration bound.  [GetWorkload] and [GetMicroservice]
    reject an invalid version argument before any request. *)
Theorem lookups_never_surface_transport_errors :
  (forall url org chainName chainType deviceId token,
      retries_until_settled
        (fun fuel tr => GetEthereumClient fuel tr url org chainName chainType deviceId token)
        (url ++ "orgs/" ++ org ++ "/bctypes/" ++ chainType
             ++ "/blockchains/" ++ chainName) deviceId token
        (GetEthereumClientResponse []) "" (ethereum_client_details chainName))
  /\ (forall org exURL id token,
        retries_until_settled
          (fun fuel tr => GetOrganization fuel tr org exURL id token)
          (exURL ++ "orgs/" ++ org) id token
          (GetOrganizationResponse []) None (organization_entry org))
  /\ (forall wURL wOrg wVersion wArch exURL id token,
        match getSearchVersion wVersion with
        | inl e =>
            forall fuel tr,
              GetWorkload fuel tr wURL wOrg wVersion wArch exURL id token
              = Some (Returned (None, Some e), tr)
        | inr searchVersion =>
            retries_until_settled
              (fun fuel tr => GetWorkload fuel tr wURL wOrg wVersion wArch exURL id token)
              (workload_targetURL exURL wOrg wURL searchVersion wArch) id token
              (GetWorkloadsResponse []) None (workload_selection searchVersion wVersion)
        end)
  /\ (forall mURL mOrg mVersion mArch exURL id token,
        match getSearchVersion mVersion with
        | inl e =>
            forall fuel tr,
              GetMicroservice fuel tr mURL mOrg mVersion mArch exURL id token
              = Some (Returned (None, Some e), tr)
        | inr searchVersion =>
            retries_until_settled
              (fun fuel tr => GetMicroservice fuel tr mURL mOrg mVersion mArch exURL id token)
              (microservice_targetURL exURL mOrg mURL searchVersion mArch) id token
              (GetMicroservicesResponse []) None
              (microservice_selection searchVersion mVersion)
        end).
Proof.
  split; [|split; [|split]].
  - intros. unfold GetEthereumClient. apply retry_get_request_settled.
    + intros r. destruct r; discriminate.
    + apply append_not_empty. discriminate.
  - intros. unfold GetOrganization. apply retry_get_request_settled.
    + intros r. destruct r; try discriminate.
      cbn [organization_entry]. destruct (map_lookup org Orgs); discriminate.
    + apply append_not_empty. discriminate.
  - intros. unfold GetWorkload. destruct (getSearchVersion wVersion) as [e|sv].
    + reflexivity.
    + apply retry_get_request_settled.
      * intros r. destruct r; try discriminate. apply select_workload_done.
      * apply workload_targetURL_not_empty.
  - intros. unfold GetMicroservice. destruct (getSearchVersion mVersion) as [e|sv].
    + reflexivity.
    + apply retry_get_request_settled.
      * intros r. destruct r; try discriminate. apply select_microservice_done.
      * apply microservice_targetURL_not_empty.
Qed.

(** C9: for a workload definition that [GetWorkload] fetched,
    [WorkloadResolver] returns an error, without looking at the
    dependencies, whenever the definition does not have exactly one
    element in its [Workloads] array; it returns the dependency list only
    for a workload with exactly one element. *)
Theorem WorkloadResolver_expects_one_deployment :
  forall fuel tr wURL wOrg wVersion wArch exURL id token workload tr1,
    GetWorkload fuel tr wURL wOrg wVersion wArch exURL id token
    = Some (Returned (Some workload, None), tr1) ->
    (List.length (Workloads workload) <> 1 ->
     WorkloadResolver fuel tr wURL wOrg wVersion wArch exURL id token
     = Some (Returned (None,
               Some ("expecting 1 element in the workloads array of "
                     ++ WorkloadDefinition_String workload ++ ", have "
                     ++ utoa (List.length (Workloads workload)))), tr1))
    /\ (forall res e tr2,
          WorkloadResolver fuel tr wURL wOrg wVersion wArch exURL id token
          = Some (Returned (Some res, e), tr2) ->
          List.length (Workloads workload) = 1).
Proof.
  intros fuel tr wURL wOrg wVersion wArch exURL id token workload tr1 Hget.
  unfold WorkloadResolver. rewrite Hget. split.
  - intros Hlen. apply Nat.eqb_neq in Hlen. rewrite Hlen. reflexivity.
  - intros res e tr2 H.
    destruct (Nat.eqb_spec (List.length (Workloads workload)) 1) as [Heq|Hne];
      [exact Heq|].
    cbn [negb] in H. discriminate H.
Qed.

(** C10: called with a version range (or no version) for which the
    Exchange answers with no workload definition at all, [GetWorkload]
    returns a nil definition and no error, and [WorkloadResolver] then
    reads [workload.Workloads] through that nil pointer: it panics instead
    of returning an error. *)
Theorem WorkloadResolver_dereferences_nil_workload :
  forall n fuel tr wURL wOrg wVersion wArch exURL id token iv tr',
    wVersion = "" \/ IsVersionExpression wVersion = true ->
    settles (get_request (workload_targetURL exURL wOrg wURL "" wArch) id token)
            n tr (GetWorkloadsResponse []) iv tr' ->
    r_err iv = None ->
    r_resp iv = GetWorkloadsResponse [] ->
    n < fuel ->
    GetWorkload fuel tr wURL wOrg wVersion wArch exURL id token
    = Some (Returned (None, None), tr')
    /\ WorkloadResolver fuel tr wURL wOrg wVersion wArch exURL id token
       = Some (Panicked "nil pointer dereference", tr').
Proof.
  intros n fuel tr wURL wOrg wVersion wArch exURL id token iv tr' Hrange Hset Herr Hresp Hfuel.
  assert (Hget : GetWorkload fuel tr wURL wOrg wVersion wArch exURL id token
                 = Some (Returned (None, None), tr')).
  { unfold GetWorkload. rewrite (getSearchVersion_range _ Hrange).
    rewrite (retry_loop_settles _ _ _ _ _ _ _ _ Hset fuel Hfuel), Herr, Hresp.
    reflexivity. }
  split; [exact Hget|]. unfold WorkloadResolver. rewrite Hget. reflexivity.
Qed.

End LookupClaims.

(** ** Concrete runs of the lookup functions *)

Module LookupRuns.

Import Scenario.

(** The spec's workload scenario: the range [[1.0.0,2.0.0)] selects
    1.2.0. *)
Example GetWorkload_scenario_range :
  option_map fst
    (GetWorkload (W := three_versions) (P := P) 1 [] wURL "acme" "[1.0.0,2.0.0)" "amd64"
                 exURL "n1" "tok")
  = Some (Returned (Some w_1_2_0, None)).
Proof. vm_compute. reflexivity. Qed.

(** The same scenario with the exact version 1.5.0, of which the Exchange
    has no record. *)
Example GetWorkload_scenario_exact_missing :
  option_map fst
    (GetWorkload (W := no_workloads) (P := P) 1 [] wURL "acme" "1.5.0" "amd64"
                 exURL "n1" "tok")
  = Some (Returned (None, Some "expecting 1 result in GET workloads response, got 0")).
Proof. vm_compute. reflexivity. Qed.

(** One timeout costs one sleep of 10 seconds and a second request. *)
Example GetWorkload_retries_after_timeout :
  option_map (fun r => sleeps (snd r))
    (GetWorkload (W := exact_match) (P := P) 2 [] wURL "acme" "1.2.0" "amd64"
                 exURL "n1" "tok")
  = Some [10]
  /\ option_map (fun r => requests_sent (snd r))
       (GetWorkload (W := exact_match) (P := P) 2 [] wURL "acme" "1.2.0" "amd64"
                    exURL "n1" "tok")
     = Some 2
  /\ GetWorkload (W := exact_match) (P := P) 1 [] wURL "acme" "1.2.0" "amd64"
                 exURL "n1" "tok" = None.
Proof. repeat split; vm_compute; reflexivity. Qed.

Lemma specific_version_expects_one_result_witness :
  exists tr',
    GetWorkload (W := exact_match) (P := P) 2 [] wURL "acme" "1.2.0" "amd64" exURL "n1" "tok"
    = Some (Returned (Some w_1_2_0, None), tr').
Proof.
  eexists.
  refine (proj1 (specific_version_expects_one_result (W := exact_match) (P := P)
                   "1.2.0" 1 2 _ _ _ _)
                [] wURL "acme" "amd64" exURL "n1" "tok" _ _
                [("acme/w_1.2.0_amd64", w_1_2_0)] _ _ _).
  - discriminate.
  - reflexivity.
  - reflexivity.
  - lia.
  - eapply settles_later;
      [ vm_compute; reflexivity | reflexivity | discriminate
      | eapply settles_now; [vm_compute; reflexivity | right; reflexivity] ].
  - reflexivity.
  - reflexivity.
Defined.

Lemma lookups_never_surface_transport_errors_witness :
  GetWorkload (W := exact_match) (P := P) 2 [] wURL "acme" "1.2.0" "amd64" exURL "n1" "tok"
  = Some (Returned (Some w_1_2_0, None),
          [EvRequest (new_request "GET" (workload_targetURL exURL "acme" wURL "1.2.0" "amd64")
                                  "n1" "tok" "");
           EvSleep 10;
           EvRequest (new_request "GET" (workload_targetURL exURL "acme" wURL "1.2.0" "amd64")
                                  "n1" "tok" "")])
  /\ GetWorkload (W := exact_match) (P := P) 1 [] wURL "acme" "1.2.0" "amd64"
                 exURL "n1" "tok" = None
  /\ GetOrganization (W := dead_transport) 50 [] "acme" exURL "n1" "tok" = None
  /\ GetWorkload (W := dead_transport_strict) (P := P) 50 [] wURL "acme" "1.2.0" "amd64"
                 exURL "n1" "tok" = None.
Proof.
  pose proof (proj1 (proj2 (proj2
                (lookups_never_surface_transport_errors (W := exact_match) (P := P))))
                wURL "acme" "1.2.0" "amd64" exURL "n1" "tok") as Hw.
  pose proof (proj1 (proj2
                (lookups_never_surface_transport_errors (W := dead_transport) (P := P)))
                "acme" exURL "n1" "tok") as Hdo.
  pose proof (proj1 (proj2 (proj2
                (lookups_never_surface_transport_errors (W := dead_transport_strict) (P := P))))
                wURL "acme" "1.2.0" "amd64" exURL "n1" "tok") as Hdw.
  assert (Hsv : getSearchVersion (P := P) "1.2.0" = inr "1.2.0") by reflexivity.
  rewrite Hsv in Hw, Hdw.
  assert (Hdown : transport_always_fails (W := dead_transport_strict))
    by (intros t req; reflexivity).
  destruct Hw as (Hlive & _ & _).
  edestruct (Hlive 1 []) as (_ & _ & _ & _ & Hrun).
  { eapply settles_later;
      [ vm_compute; reflexivity | reflexivity | discriminate
      | eapply settles_now; [vm_compute; reflexivity | right; reflexivity] ]. }
  split; [exact (Hrun (Returned (Some w_1_2_0, None)) eq_refl 2)|].
  split; [exact (Hrun (Returned (Some w_1_2_0, None)) eq_refl 1)|].
  split.
  - apply (proj2 (proj2 Hdo)); [intros t req|]; reflexivity.
  - apply (proj2 (proj2 Hdw) Hdown); reflexivity.
Defined.

Lemma WorkloadResolver_expects_one_deployment_witness :
  exists msg tr1,
    WorkloadResolver (W := two_deployments_stored) (P := P) 1 [] wURL "acme" "1.0.0" "amd64"
                     exURL "n1" "tok"
    = Some (Returned (None, Some msg), tr1)
    /\ Contains msg ", have 2" = true.
Proof.
  eexists. eexists. split.
  - refine (proj1 (WorkloadResolver_expects_one_deployment
                     (W := two_deployments_stored) (P := P)
                     1 [] wURL "acme" "1.0.0" "amd64" exURL "n1" "tok"
                     (workload "1.0.0" two_deployments [dependency_m]) _ _) _).
    + vm_compute. reflexivity.
    + cbn. lia.
  - vm_compute. reflexivity.
Defined.

Lemma WorkloadResolver_dereferences_nil_workload_witness :
  exists tr',
    GetWorkload (W := no_workloads) (P := P) 1 [] wURL "acme" "[1.0.0,2.0.0)" "amd64"
                exURL "n1" "tok"
    = Some (Returned (None, None), tr')
    /\ WorkloadResolver (W := no_workloads) (P := P) 1 [] wURL "acme" "[1.0.0,2.0.0)" "amd64"
                        exURL "n1" "tok"
       = Some (Panicked "nil pointer dereference", tr').
Proof.
  eexists.
  refine (WorkloadResolver_dereferences_nil_workload (W := no_workloads) (P := P)
            0 1 [] wURL "acme" "[1.0.0,2.0.0)" "amd64" exURL "n1" "tok" _ _ _ _ _ _ _).
  - right. reflexivity.
  - eapply settles_now; [vm_compute; reflexivity | right; reflexivity].
  - reflexivity.
  - reflexivity.
  - lia.
Defined.

(** C1, on the code: with the versions 1.9.0 and 1.10.0 stored, both
    inside the range, [GetWorkload] (which meets 1.9.0 first) and
    [GetMicroservice] (which meets 1.10.0 first) return 1.9.0, because
    [highest] is compared with [strings.Compare]; in the dotted-number
    order 1.10.0 is the higher version. *)
Lemma range_lookup_returns_bytewise_maximum :
  option_map fst
    (GetWorkload (W := two_digit_versions) (P := P) 1 [] wURL "acme" "[1.0.0,2.0.0)" "amd64"
                 exURL "n1" "tok")
  = Some (Returned (Some (workload "1.9.0" one_deployment []), None))
  /\ option_map fst
       (GetMicroservice (W := two_digit_versions) (P := P) 1
                        [EvRequest (new_request "GET" wURL "n1" "tok" "")]
                        mURL "acme" "[1.0.0,2.0.0)" "amd64" exURL "n1" "tok")
     = Some (Returned (Some (microservice "1.9.0"), None))
  /\ (forall r, SpecPolicy.parseRange "[1.0.0,2.0.0)" = inr r ->
                SpecPolicy.inRange r "1.10.0" = inr true
                /\ SpecPolicy.inRange r "1.9.0" = inr true)
  /\ SpecPolicy.cmp "1.9.0" "1.10.0" = (-1)%Z
  /\ Compare "1.9.0" "1.10.0" = 1%Z.
Proof.
  split; [vm_compute; reflexivity|]. split; [vm_compute; reflexivity|].
  split; [|split; reflexivity].
  intros r Hr. vm_compute in Hr. inversion Hr; subst r. split; reflexivity.
Qed.

(** C2, on the code: with a range and an answer that holds no
    microservice, [GetMicroservice] returns a pointer to the zero
    definition, not nil; so does [GetWorkload] when definitions were
    fetched and none is inside the range. *)
Lemma range_lookup_returns_zero_definition :
  option_map fst
    (GetMicroservice (W := nothing_stored) (P := P) 1 [] mURL "acme" "[1.0.0,2.0.0)" "amd64"
                     exURL "n1" "tok")
  = Some (Returned (Some zero_MicroserviceDefinition, None))
  /\ option_map fst
       (GetWorkload (W := only_1_0_0) (P := P) 1 [] wURL "acme" "[2.0.0,3.0.0)" "amd64"
                    exURL "n1" "tok")
     = Some (Returned (Some zero_WorkloadDefinition, None)).
Proof. split; vm_compute; reflexivity. Qed.

(** C4, on the code: the workload declares a dependency on a
    microservice of which the Exchange holds no definition, and
    [WorkloadResolver] returns the dependency list without an error. *)
Lemma WorkloadResolver_accepts_missing_dependency :
  option_map fst
    (WorkloadResolver (W := missing_dependency) (P := P) 1 [] wURL "acme" "1.0.0" "amd64"
                      exURL "n1" "tok")
  = Some (Returned (Some [(mURL, "acme", "1.0.0", "amd64")], None))
  /\ option_map fst
       (GetMicroservice (W := missing_dependency) (P := P) 1
                        [EvRequest (new_request "GET" wURL "n1" "tok" "")]
                        mURL "acme" "[1.0.0,INFINITY)" "amd64" exURL "n1" "tok")
     = Some (Returned (Some zero_MicroserviceDefinition, None)).
Proof. split; vm_compute; reflexivity. Qed.

End LookupRuns.

(** ** Exchange identifiers: [GetOrg] and [GetId] *)

Lemma prefix_slash (s : string) :
  String.prefix "/" s = match s with
                        | String c _ => Ascii.eqb c "/"
                        | EmptyString => false
                        end.
Proof.
  destruct s as [|c s]; [reflexivity|]. cbn [String.prefix].
  destruct (ascii_dec "/" c) as [<-|Hne].
  - rewrite Ascii.eqb_refl. destruct s; reflexivity.
  - symmetry. apply Ascii.eqb_neq. congruence.
Qed.

Lemma Contains_slash_cons (c : ascii) (s : string) :
  Contains (String c s) "/" = Ascii.eqb c "/" || Contains s "/".
Proof. rewrite Contains_unfold, prefix_slash. reflexivity. Qed.

Lemma index_of_slash_cons (c : ascii) (s : string) :
  index_of (String c s) "/"
  = if Ascii.eqb c "/" then Some 0 else option_map S (index_of s "/").
Proof.
  change (index_of (String c s) "/")
    with (if String.prefix "/" (String c s) then Some 0
          else option_map S (index_of s "/")).
  rewrite prefix_slash. reflexivity.
Qed.

Lemma index_of_joined (org rest : string) :
  Contains org "/" = false ->
  index_of (org ++ "/" ++ rest) "/" = Some (String.length org).
Proof.
  induction org as [|c org IH]; intros H.
  - cbn [append]. rewrite index_of_slash_cons. reflexivity.
  - rewrite Contains_slash_cons in H. apply orb_false_iff in H. destruct H as [Hc Ho].
    change (String c org ++ "/" ++ rest) with (String c (org ++ "/" ++ rest)).
    rewrite index_of_slash_cons, Hc, (IH Ho). reflexivity.
Qed.

Lemma index_of_no_slash (s : string) :
  Contains s "/" = false -> index_of s "/" = None.
Proof.
  induction s as [|c s IH]; intros H; [reflexivity|].
  rewrite Contains_slash_cons in H. apply orb_false_iff in H. destruct H as [Hc Hs].
  rewrite index_of_slash_cons, Hc, (IH Hs). reflexivity.
Qed.

Lemma split_at_slash (id : string) :
  Contains id "/" = true ->
  exists org rest, id = org ++ "/" ++ rest /\ Contains org "/" = false.
Proof.
  induction id as [|c id IH]; intros H; [discriminate|].
  rewrite Contains_slash_cons in H.
  destruct (Ascii.eqb c "/") eqn:Hc.
  - apply Ascii.eqb_eq in Hc. subst c. exists "", id. split; reflexivity.
  - cbn [orb] in H. destruct (IH H) as (org & rest & -> & Horg).
    exists (String c org), rest. split; [reflexivity|].
    rewrite Contains_slash_cons, Hc, Horg. reflexivity.
Qed.

Lemma substring_all (s : string) : String.substring 0 (String.length s) s = s.
Proof. induction s as [|c s IH]; cbn; [reflexivity | now rewrite IH]. Qed.

Lemma substring_head (a b : string) :
  String.substring 0 (String.length a) (a ++ b) = a.
Proof.
  induction a as [|c a IH]; cbn.
  - destruct b; reflexivity.
  - now rewrite IH.
Qed.

Lemma substring_skip (a b : string) (m : nat) :
  String.substring (String.length a) m (a ++ b) = String.substring 0 m b.
Proof. induction a as [|c a IH]; cbn; [reflexivity | exact IH]. Qed.

Lemma length_append (a b : string) :
  String.length (a ++ b) = String.length a + String.length b.
Proof. induction a as [|c a IH]; cbn; [reflexivity | now rewrite IH]. Qed.

Lemma slice_to_in_bounds (s : string) (n : nat) :
  n <= String.length s ->
  slice_to s (Z.of_nat n) = Returned (String.substring 0 n s).
Proof.
  intros H. unfold slice_to.
  assert (Hb : ((Z.of_nat n <? 0) || (Z.of_nat (String.length s) <? Z.of_nat n))%Z = false)
    by (apply orb_false_iff; split; apply Z.ltb_ge; lia).
  rewrite Hb, Nat2Z.id. reflexivity.
Qed.

Lemma slice_from_in_bounds (s : string) (n : nat) :
  n <= String.length s ->
  slice_from s (Z.of_nat n) = Returned (String.substring n (String.length s - n) s).
Proof.
  intros H. unfold slice_from.
  assert (Hb : ((Z.of_nat n <? 0) || (Z.of_nat (String.length s) <? Z.of_nat n))%Z = false)
    by (apply orb_false_iff; split; apply Z.ltb_ge; lia).
  rewrite Hb, Nat2Z.id. reflexivity.
Qed.

Lemma append_assoc (a b c : string) : (a ++ b) ++ c = a ++ b ++ c.
Proof. induction a as [|x a IH]; cbn; [reflexivity | now rewrite IH]. Qed.

(** X1: for an identifier made of an organization without a slash, a
    slash and any rest, [GetOrg] returns the organization and [GetId] the
    rest, slashes of the rest included. *)
Theorem GetOrg_GetId_of_joined :
  forall org rest,
    Contains org "/" = false ->
    GetOrg (org ++ "/" ++ rest) = Returned org
    /\ GetId (org ++ "/" ++ rest) = Returned rest.
Proof.
  intros org rest Horg. unfold GetOrg, GetId, Index.
  rewrite (index_of_joined org rest Horg). split.
  - rewrite slice_to_in_bounds by (rewrite !length_append; lia).
    rewrite substring_head. reflexivity.
  - replace (Z.of_nat (String.length org) + 1)%Z
      with (Z.of_nat (String.length (org ++ "/")))
      by (rewrite length_append; cbn [String.length]; lia).
    rewrite <- append_assoc.
    rewrite slice_from_in_bounds by (rewrite !length_append; lia).
    rewrite substring_skip, length_append.
    replace (String.length (org ++ "/") + String.length rest - String.length (org ++ "/"))
      with (String.length rest) by lia.
    rewrite substring_all. reflexivity.
Qed.

(** X2: an identifier that contains a slash is split at its first slash:
    [GetOrg] and [GetId] return two parts that, joined by a slash, give
    the identifier back, and the organization part has no slash. *)
Theorem GetOrg_GetId_split :
  forall id,
    Contains id "/" = true ->
    exists org rest,
      GetOrg id = Returned org /\ GetId id = Returned rest
      /\ id = org ++ "/" ++ rest /\ Contains org "/" = false.
Proof.
  intros id H. destruct (split_at_slash id H) as (org & rest & -> & Horg).
  exists org, rest. destruct (GetOrg_GetId_of_joined org rest Horg) as [Ho Hi].
  repeat split; assumption.
Qed.

(** X3: on an identifier without a slash, [GetOrg] panics (the slice
    bound is -1) while [GetId] returns the whole identifier; [GetId]
    never panics. *)
Theorem GetOrg_GetId_without_slash :
  (forall id,
      Contains id "/" = false ->
      GetOrg id = Panicked "slice bounds out of range" /\ GetId id = Returned id)
  /\ (forall id, exists rest, GetId id = Returned rest).
Proof.
  assert (Hno : forall id, Contains id "/" = false ->
                           GetOrg id = Panicked "slice bounds out of range"
                           /\ GetId id = Returned id).
  { intros id H. unfold GetOrg, GetId, Index. rewrite (index_of_no_slash id H).
    split; [reflexivity|]. unfold slice_from.
    assert (Hb : ((-1 + 1 <? 0) || (Z.of_nat (String.length id) <? -1 + 1))%Z = false).
    { apply orb_false_iff. split; apply Z.ltb_ge; lia. }
    rewrite Hb. cbn [Z.add Z.to_nat]. change (Z.to_nat (-1 + 1)) with 0.
    rewrite Nat.sub_0_r, substring_all. reflexivity. }
  split; [exact Hno|].
  intros id. destruct (Contains id "/") eqn:H.
  - destruct (GetOrg_GetId_split id H) as (org & rest & _ & Hi & _). exists rest. exact Hi.
  - exists id. apply Hno, H.
Qed.

(** ** [ConvertToString] *)

Lemma TrimRight_drop (x : string) (c : ascii) (cutset : string) :
  in_cutset c cutset = true ->
  TrimRight (x ++ String c "") cutset = TrimRight x cutset.
Proof.
  intros Hc. induction x as [|d x IH].
  - cbn. rewrite Hc. reflexivity.
  - change (String d x ++ String c "") with (String d (x ++ String c "")).
    cbn [TrimRight]. rewrite IH. reflexivity.
Qed.

Lemma TrimRight_keep (x : string) (c : ascii) (cutset : string) :
  in_cutset c cutset = false ->
  TrimRight (x ++ String c "") cutset = x ++ String c "".
Proof.
  intros Hc. induction x as [|d x IH].
  - cbn. rewrite Hc. reflexivity.
  - change (String d x ++ String c "") with (String d (x ++ String c "")).
    cbn [TrimRight]. rewrite IH. destruct x; reflexivity.
Qed.

Lemma TrimRight_no_trailing (s cutset x : string) (c : ascii) :
  TrimRight s cutset = x ++ String c "" -> in_cutset c cutset = false.
Proof.
  revert x. induction s as [|d s IH]; intros x H.
  - destruct x; discriminate.
  - cbn [TrimRight] in H. destruct (TrimRight s cutset) as [|e t] eqn:Ht.
    + destruct (in_cutset d cutset) eqn:Hd.
      * destruct x; discriminate.
      * destruct x as [|y x]; cbn in H.
        -- inversion H; subst. exact Hd.
        -- inversion H. destruct x; discriminate.
    + destruct x as [|y x]; cbn in H.
      * inversion H.
      * inversion H; subst. eapply IH. eassumption.
Qed.

Lemma joined_with_commas (a : list string) (acc : string) :
  a <> [] ->
  fold_left (fun r s => (r ++ s) ++ ",") a acc = acc ++ String.concat "," a ++ ",".
Proof.
  revert acc. induction a as [|x xs IH]; intros acc Hne; [contradiction|].
  cbn [fold_left]. destruct xs as [|y ys].
  - cbn. apply append_assoc.
  - rewrite IH by discriminate.
    change (String.concat "," (x :: y :: ys))
      with (x ++ "," ++ String.concat "," (y :: ys)).
    rewrite !append_assoc. reflexivity.
Qed.

Lemma ConvertToString_trimmed_join (a : list string) :
  ConvertToString a = TrimRight (String.concat "," a) ",".
Proof.
  unfold ConvertToString. destruct a as [|x xs]; [reflexivity|].
  rewrite joined_with_commas by discriminate. cbn [append].
  apply (TrimRight_drop _ "," ","). reflexivity.
Qed.

Lemma concat_snoc (sep : string) (init : list string) (w : string) :
  exists z, String.concat sep (init ++ [w]) = z ++ w.
Proof.
  induction init as [|x xs IH].
  - exists "". reflexivity.
  - destruct xs as [|y ys].
    + exists (x ++ sep). cbn. rewrite append_assoc. reflexivity.
    + destruct IH as (z & Hz). exists (x ++ sep ++ z).
      change (String.concat sep ((x :: y :: ys) ++ [w]))
        with (x ++ sep ++ String.concat sep ((y :: ys) ++ [w])).
      rewrite Hz, !append_assoc. reflexivity.
Qed.

(** X4: when the last element of the list ends in a character other
    than a comma, [ConvertToString] returns the elements joined by
    commas. *)
Theorem ConvertToString_joins :
  forall (init : list string) (y : string) (c : ascii),
    c <> ","%char ->
    ConvertToString (init ++ [y ++ String c ""])
    = String.concat "," (init ++ [y ++ String c ""]).
Proof.
  intros init y c Hc. rewrite ConvertToString_trimmed_join.
  destruct (concat_snoc "," init (y ++ String c "")) as (z & ->).
  rewrite <- append_assoc. apply TrimRight_keep.
  cbn. apply Ascii.eqb_neq in Hc. rewrite Hc. reflexivity.
Qed.

(** X5: the result of [ConvertToString] never ends in a comma, the empty
    list gives the empty string, and an empty string at the end of the
    list is lost: the list with it and the list without it give the same
    result. *)
Theorem ConvertToString_trims :
  (forall a x, ConvertToString a <> x ++ ",")
  /\ ConvertToString [] = ""
  /\ (forall a, ConvertToString (a ++ [""]) = ConvertToString a).
Proof.
  split; [|split].
  - intros a x H. unfold ConvertToString in H.
    apply TrimRight_no_trailing in H. discriminate H.
  - reflexivity.
  - intros a. rewrite !ConvertToString_trimmed_join.
    destruct a as [|x xs]; [reflexivity|].
    assert (H : String.concat "," ((x :: xs) ++ [""]) = String.concat "," (x :: xs) ++ ",").
    { induction xs as [|y ys IH] in x |- *.
      - reflexivity.
      - change (String.concat "," ((x :: y :: ys) ++ [""]))
          with (x ++ "," ++ String.concat "," ((y :: ys) ++ [""])).
        rewrite IH.
        change (String.concat "," (x :: y :: ys))
          with (x ++ "," ++ String.concat "," (y :: ys)).
        rewrite !append_assoc. reflexivity. }
    rewrite H. apply (TrimRight_drop _ "," ","). reflexivity.
Qed.

(** ** [GetUserInputName] *)

(** X6: [GetUserInputName] returns the first user input of the workload
    that has the given name, and nil exactly when no user input has that
    name. *)
Theorem GetUserInputName_first_match :
  forall w name,
    match GetUserInputName w name with
    | Some ui =>
        UserInput_Name ui = name
        /\ exists before after,
             UserInputs w = (before ++ ui :: after)%list
             /\ Forall (fun u => UserInput_Name u <> name) before
    | None => Forall (fun u => UserInput_Name u <> name) (UserInputs w)
    end.
Proof.
  intros w name. unfold GetUserInputName.
  induction (UserInputs w) as [|u rest IH]; cbn [user_input_named].
  - constructor.
  - destruct (String.eqb_spec (UserInput_Name u) name) as [Heq|Hne].
    + split; [exact Heq|]. exists [], rest. split; [reflexivity | constructor].
    + destruct (user_input_named rest name) as [ui|].
      * destruct IH as (Hn & before & after & -> & Hb). split; [exact Hn|].
        exists (u :: before), after. split; [reflexivity|]. constructor; assumption.
      * constructor; assumption.
Qed.

(** ** [CreateMessageTarget] *)

(** X7: [CreateMessageTarget] succeeds exactly when either the message
    endpoint or at least one of the two public key inputs is given, but
    not both; the target then holds the four inputs unchanged.  In every
    other case it returns an error and no target. *)
Theorem CreateMessageTarget_needs_one_kind :
  forall (K : Type) (fmt_PublicKey : K -> string)
         (receiverId : string) (receiverPubKey : option K)
         (receiverPubKeySerialized : list Byte.byte) (receiverMessageEndpoint : string),
    let endpoint_given := receiverMessageEndpoint <> "" in
    let key_given := receiverPubKey <> None \/ receiverPubKeySerialized <> [] in
    ((endpoint_given /\ ~ key_given) \/ (~ endpoint_given /\ key_given)
     -> CreateMessageTarget K fmt_PublicKey receiverId receiverPubKey
                            receiverPubKeySerialized receiverMessageEndpoint
        = (Some {| ReceiverExchangeId := receiverId;
                   ReceiverPublicKeyObj := receiverPubKey;
                   ReceiverPublicKeyBytes := receiverPubKeySerialized;
                   ReceiverMsgEndPoint := receiverMessageEndpoint |}, None))
    /\ ((endpoint_given /\ key_given) \/ (~ endpoint_given /\ ~ key_given)
        -> exists msg,
            CreateMessageTarget K fmt_PublicKey receiverId receiverPubKey
                                receiverPubKeySerialized receiverMessageEndpoint
            = (None, Some msg)).
Proof.
  intros K fmt_PublicKey receiverId receiverPubKey bytes endpoint endpoint_given key_given.
  subst endpoint_given key_given. unfold CreateMessageTarget.
  assert (E0 : ~ (EmptyString <> "")) by congruence.
  assert (K0 : ~ (@None K <> None)) by congruence.
  assert (B0 : ~ (@nil Byte.byte <> [])) by congruence.
  destruct endpoint as [|c e]; destruct receiverPubKey as [k|]; destruct bytes as [|b bs];
    try (assert (E1 : String c e <> "") by discriminate);
    try (assert (K1 : Some k <> None) by discriminate);
    try (assert (B1 : b :: bs <> []) by discriminate);
    cbn [String.length List.length Nat.eqb andb orb negb]; split; intros H;
    first [reflexivity | eexists; reflexivity | exfalso; tauto].
Qed.

(** ** [ConvertPropertyToExchangeFormat] *)

(** X8: whatever [ConvertPropertyToExchangeFormat] returns for a non-nil
    property falls in one of three classes.  A converted property keeps
    the name and pairs its type with the comparison operator: version,
    string and list with "in", int with ">=", boolean with "=".  An error
    (and no property) is returned only for a value of an unsupported type
    under a name other than "version".  The call panics when the name is
    "version" and the value is no string, or when the value is the nil
    interface. *)
Theorem ConvertPropertyToExchangeFormat_classes :
  forall (F : Type) (int_of_float64 : F -> Z) (prop : Property F),
    match ConvertPropertyToExchangeFormat F int_of_float64 (Some prop) with
    | Returned (Some newProp, None) =>
        MSProp_Name newProp = Property_Name prop
        /\ In (MSProp_PropType newProp, MSProp_Op newProp)
              [("version", "in"); ("string", "in"); ("int", ">=");
               ("boolean", "="); ("list", "in")]
        /\ ((MSProp_PropType newProp = "version") <-> (Property_Name prop = "version"))
    | Returned (None, Some _) =>
        Property_Name prop <> "version"
        /\ exists type_name, Property_Value prop = VOther type_name
    | Returned _ => False
    | Panicked _ =>
        (Property_Name prop = "version"
         /\ forall s, Property_Value prop <> VString s)
        \/ Property_Value prop = VNil
    end.
Proof.
  intros F conv [name value]. cbn [ConvertPropertyToExchangeFormat Property_Name Property_Value].
  destruct (String.eqb_spec name "version") as [Hv|Hv].
  - destruct value; cbn;
      try (left; split; [exact Hv | intros s' Hs; discriminate Hs]).
    split; [reflexivity|]. split; [left; reflexivity | tauto].
  - destruct value; cbn;
      try (split; [reflexivity|]; split;
           [ repeat (first [left; reflexivity | right])
           | split; intros X; [discriminate X | contradiction] ]).
    + right. reflexivity.
    + split; [exact Hv | eexists; reflexivity].
Qed.

(** ** More on [InvokeExchange] *)

Section InvokeExchangeMore.

Context {W : World}.

(** The three ways in which a delivered response is handled, for any
    method. *)
Lemma handle_response_cases method url params v httpResp r0 :
  let status := StatusCode httpResp in
  let outBytes := body_bytes httpResp in
  let iv := handle_response method url params v httpResp r0 in
  ((status =? 500)%Z && Contains outBytes "timed out" = true
   /\ r_err iv = None /\ r_tpErr iv <> None /\ r_resp iv = r0)
  \/ ((status =? 500)%Z && Contains outBytes "timed out" = false
      /\ accepted_status method status = false
      /\ iv = app_error (status_error method url status outBytes) r0)
  \/ ((status =? 500)%Z && Contains outBytes "timed out" = false
      /\ accepted_status method status = true
      /\ iv = if method =? "DELETE" then no_error r0
              else decode_response method url params v outBytes r0).
Proof.
  intros status outBytes iv. subst iv. unfold handle_response.
  fold outBytes. fold status.
  assert (Hread : match Body httpResp with Some _ => @None error | None => None end = None)
    by (destruct (Body httpResp); reflexivity).
  rewrite Hread. unfold StatusInternalServerError.
  destruct ((status =? 500)%Z && Contains outBytes "timed out") eqn:Hto.
  - left. repeat split. discriminate.
  - right.
    unfold accepted_status, StatusOK, StatusNotFound, StatusCreated, StatusNoContent.
    destruct (String.eqb_spec method "GET") as [->|Hget];
      [|destruct (String.eqb_spec method "PUT") as [->|Hput];
        [|destruct (String.eqb_spec method "POST") as [->|Hpost];
          [|destruct (String.eqb_spec method "PATCH") as [->|Hpatch];
            [|destruct (String.eqb_spec method "DELETE") as [->|Hdel]]]]];
      cbn [String.eqb Ascii.eqb Bool.eqb orb andb negb];
      repeat match goal with
             | |- context [(status =? ?a)%Z] => destruct (status =? a)%Z
             end;
      cbn [orb andb negb]; auto.
Qed.

Lemma check_response_ok method url params v r :
  r_err (check_response method url params v r) = None ->
  r_resp (check_response method url params v r) = r
  /\ (forall v', r <> UnknownResponse v')
  /\ (forall code msg, r = PostDeviceResponse code msg -> code = "ok").
Proof.
  intros H. destruct r; cbn in H |- *; try discriminate H;
    try (repeat split; intros; discriminate).
  destruct (String.eqb_spec Code "ok") as [->|Hne]; cbn in H |- *; [|discriminate H].
  repeat split; intros; try discriminate. inversion H0. reflexivity.
Qed.

(** X9: [InvokeExchange] returns without sending a request exactly when
    the method or the URL is empty, the response pointer is nil, the
    parameters cannot be marshalled or the request cannot be built, and
    what it then returns is an application error; in every other case it
    sends exactly one request, with the marshalled parameters as body. *)
Theorem InvokeExchange_early_returns :
  forall tr method url user pw params resp,
    let early :=
      method = "" \/ url = "" \/ resp = None
      \/ (exists e, marshal_params params = inl e)
      \/ (exists e, http_NewRequest method url = Some e) in
    let iv := fst (InvokeExchange tr method url user pw params resp) in
    let tr' := snd (InvokeExchange tr method url user pw params resp) in
    (early -> tr' = tr /\ r_err iv <> None /\ r_tpErr iv = None)
    /\ (~ early ->
        exists requestBody,
          marshal_params params = inr requestBody
          /\ tr' = (tr ++ [EvRequest (new_request method url user pw requestBody)])%list).
Proof.
  intros tr method url user pw params resp early iv tr'. subst early iv tr'.
  unfold InvokeExchange.
  destruct method as [|c m].
  { split; [intros _; cbn; repeat split; discriminate | intros H; exfalso; apply H; auto]. }
  destruct url as [|c' u].
  { split; [intros _; cbn; repeat split; discriminate | intros H; exfalso; apply H; auto]. }
  cbn [String.length Nat.eqb].
  destruct resp as [r0|].
  2:{ split; [intros _; cbn; repeat split; discriminate | intros H; exfalso; apply H; auto]. }
  destruct (marshal_params params) as [e|requestBody] eqn:Hp.
  { split; [intros _; cbn; repeat split; discriminate|].
    intros H; exfalso; apply H. right. right. right. left. eexists. reflexivity. }
  destruct (http_NewRequest (String c m) (String c' u)) as [e|] eqn:Hn.
  { split; [intros _; cbn; repeat split; discriminate|].
    intros H; exfalso; apply H. right. right. right. right. eexists. reflexivity. }
  split.
  - intros [H|[H|[H|[[e H]|[e H]]]]]; discriminate.
  - intros _. exists requestBody. split; [reflexivity|].
    destruct (rt_outcome _); [destruct (isTimeout err)|]; reflexivity.
Qed.

(** X10: when [InvokeExchange] returns no error at all, a request was
    sent and answered with a status that the matrix accepts for the
    method; for [DELETE] the response object is left as it was, and for
    any other method the body was decoded into the response object, whose
    type is a known one and, for a [PostDeviceResponse], whose code is
    "ok". *)
Theorem InvokeExchange_success :
  forall tr method url user pw params resp,
    let iv := fst (InvokeExchange tr method url user pw params resp) in
    r_err iv = None -> r_tpErr iv = None ->
    exists r0 requestBody httpResp unread_v,
      resp = Some r0
      /\ marshal_params params = inr requestBody
      /\ httpClient_Do tr (new_request method url user pw requestBody)
         = {| rt_outcome := DoResponse httpResp; rt_unread := unread_v |}
      /\ accepted_status method (StatusCode httpResp) = true
      /\ if method =? "DELETE" then r_resp iv = r0
         else json_Unmarshal (body_bytes httpResp) r0 = inr (r_resp iv)
              /\ (forall v, r_resp iv <> UnknownResponse v)
              /\ (forall code msg, r_resp iv = PostDeviceResponse code msg -> code = "ok").
Proof.
  intros tr method url user pw params resp iv Herr Htp. subst iv.
  destruct (InvokeExchange_cases tr method url user pw params resp)
    as [(_ & _ & Hne)|(r0 & requestBody & -> & Hm & Hu & Hp & Hn)]; [contradiction|].
  rewrite (InvokeExchange_sent tr _ _ user pw _ r0 _ Hm Hu Hp Hn) in *. cbn [fst] in *.
  unfold after_round_trip in *.
  destruct (httpClient_Do tr (new_request method url user pw requestBody))
    as [[e|httpResp] unread_v] eqn:Hdo; cbn [rt_outcome rt_unread] in *.
  { destruct (isTimeout e); discriminate. }
  exists r0, requestBody, httpResp, unread_v.
  split; [reflexivity|]. split; [exact Hp|]. split; [exact Hdo|].
  destruct (handle_response_cases method url params unread_v httpResp r0)
    as [(_ & _ & Hx & _)|[(_ & _ & Heq)|(_ & Hacc & Heq)]].
  - contradiction.
  - rewrite Heq in Herr. discriminate.
  - split; [exact Hacc|]. rewrite Heq in *. clear Heq.
    destruct (method =? "DELETE"); [reflexivity|].
    unfold decode_response in *.
    destruct (json_Unmarshal (body_bytes httpResp) r0) as [e|r]; [discriminate|].
    destruct (check_response_ok _ _ _ _ _ Herr) as (Hr & Hknown & Hcode).
    rewrite Hr. auto.
Qed.

(** X11: for a method outside the matrix (any non-empty method other
    than GET, PUT, POST, PATCH and DELETE, in these exact letters) no
    status is rejected: unless the response is the 500 "timed out" one,
    the body of a completed exchange is decoded whatever the status. *)
Theorem InvokeExchange_other_methods :
  forall tr method url user pw params r0 requestBody httpResp unread_v,
    method <> "" ->
    ~ In method ["GET"; "PUT"; "POST"; "PATCH"; "DELETE"] ->
    url <> "" ->
    marshal_params params = inr requestBody ->
    http_NewRequest method url = None ->
    httpClient_Do tr (new_request method url user pw requestBody)
    = {| rt_outcome := DoResponse httpResp; rt_unread := unread_v |} ->
    (StatusCode httpResp =? 500)%Z && Contains (body_bytes httpResp) "timed out" = false ->
    fst (InvokeExchange tr method url user pw params (Some r0))
    = decode_response method url params unread_v (body_bytes httpResp) r0.
Proof.
  intros tr method url user pw params r0 requestBody httpResp unread_v
         Hm Hnot Hu Hp Hn Hdo Hto.
  rewrite (InvokeExchange_sent tr _ _ user pw _ r0 _ Hm Hu Hp Hn). cbn [fst].
  unfold after_round_trip. rewrite Hdo. cbn [rt_outcome rt_unread].
  assert (Hall : (method =? "GET") = false /\ (method =? "PUT") = false
                 /\ (method =? "POST") = false /\ (method =? "PATCH") = false
                 /\ (method =? "DELETE") = false).
  { repeat split; apply String.eqb_neq; intros ->; apply Hnot; cbn; auto 6. }
  destruct Hall as (Hg & Hpu & Hpo & Hpa & Hd).
  destruct (handle_response_cases method url params unread_v httpResp r0)
    as [(Hx & _)|[(_ & Hacc & _)|(_ & _ & Heq)]].
  - congruence.
  - unfold accepted_status in Hacc. rewrite Hg, Hpu, Hpo, Hpa, Hd in Hacc. discriminate.
  - rewrite Heq, Hd. reflexivity.
Qed.

(** An error of [ioutil.ReadAll] is never looked at: a response is
    handled by its status and by the bytes that were read. *)
Lemma handle_response_ignores_read_errors :
  forall method url params v status outBytes readErr1 readErr2 r0,
    handle_response method url params v
      {| StatusCode := status; Body := Some (outBytes, readErr1) |} r0
    = handle_response method url params v
        {| StatusCode := status; Body := Some (outBytes, readErr2) |} r0.
Proof. intros. reflexivity. Qed.

(** X12: when the Exchange answers a call other than [DELETE] with an
    accepted status and a body that decodes to a [PostDeviceResponse]
    whose code is not "ok", [InvokeExchange] returns an application
    error whose message carries the message of that response. *)
Theorem InvokeExchange_reports_response_code :
  forall tr method url user pw params r0 requestBody httpResp unread_v code msg,
    method <> "" -> method <> "DELETE" ->
    url <> "" ->
    marshal_params params = inr requestBody ->
    http_NewRequest method url = None ->
    httpClient_Do tr (new_request method url user pw requestBody)
    = {| rt_outcome := DoResponse httpResp; rt_unread := unread_v |} ->
    (StatusCode httpResp =? 500)%Z && Contains (body_bytes httpResp) "timed out" = false ->
    accepted_status method (StatusCode httpResp) = true ->
    json_Unmarshal (body_bytes httpResp) r0 = inr (PostDeviceResponse code msg) ->
    code <> "ok" ->
    exists text,
      r_err (fst (InvokeExchange tr method url user pw params (Some r0))) = Some text
      /\ r_tpErr (fst (InvokeExchange tr method url user pw params (Some r0))) = None
      /\ Contains text msg = true.
Proof.
  intros tr method url user pw params r0 requestBody httpResp unread_v code msg
         Hm Hdel Hu Hp Hn Hdo Hto Hacc Hjson Hcode.
  rewrite (InvokeExchange_sent tr _ _ user pw _ r0 _ Hm Hu Hp Hn). cbn [fst].
  unfold after_round_trip. rewrite Hdo. cbn [rt_outcome rt_unread].
  destruct (handle_response_cases method url params unread_v httpResp r0)
    as [(Hx & _)|[(_ & Hrej & _)|(_ & _ & Heq)]]; [congruence | congruence |].
  rewrite Heq. apply String.eqb_neq in Hdel. rewrite Hdel.
  unfold decode_response. rewrite Hjson. cbn [check_response].
  apply String.eqb_neq in Hcode. rewrite Hcode. cbn [negb].
  eexists. split; [reflexivity|]. split; [reflexivity|].
  do 7 apply Contains_app_skip. apply Contains_refl.
Qed.

End InvokeExchangeMore.

(** ** [isTimeout] *)

Lemma ToLower_app (a b : string) : ToLower (a ++ b) = ToLower a ++ ToLower b.
Proof. induction a as [|c a IH]; cbn; [reflexivity | now rewrite IH]. Qed.

Lemma prefix_app (sub s y : string) :
  String.prefix sub s = true -> String.prefix sub (s ++ y) = true.
Proof.
  revert sub. induction s as [|c s IH]; intros sub H.
  - destruct sub; [|discriminate]. destruct y; reflexivity.
  - destruct sub as [|d sub]; [reflexivity|].
    cbn [String.prefix append] in *.
    destruct (ascii_dec d c); [apply IH, H | discriminate].
Qed.

Lemma Contains_app_l (s y sub : string) :
  Contains s sub = true -> Contains (s ++ y) sub = true.
Proof.
  induction s as [|c s IH]; intros H.
  - rewrite Contains_unfold in H. rewrite orb_false_r in H.
    rewrite Contains_unfold. rewrite (prefix_app sub "" y H). reflexivity.
  - rewrite Contains_unfold in H. apply orb_true_iff in H.
    change (String c s ++ y) with (String c (s ++ y)). rewrite Contains_unfold.
    apply orb_true_iff. destruct H as [H|H].
    + left. exact (prefix_app sub (String c s) y H).
    + right. exact (IH H).
Qed.

Lemma Contains_infix (a w b sub : string) :
  Contains w sub = true -> Contains (a ++ w ++ b) sub = true.
Proof. intros H. apply Contains_app_skip, Contains_app_l, H. Qed.

(** X13: [isTimeout] accepts every error text in which the words "time"
    and "out" occur, in any letter case, in either order, and whatever
    stands before, between and after them. *)
Theorem isTimeout_words :
  forall w1 w2 a b c,
    ToLower w1 = "time" -> ToLower w2 = "out" ->
    isTimeout (a ++ w1 ++ b ++ w2 ++ c) = true
    /\ isTimeout (a ++ w2 ++ b ++ w1 ++ c) = true.
Proof.
  intros w1 w2 a b c H1 H2. unfold isTimeout.
  rewrite !ToLower_app, H1, H2. split; apply andb_true_iff; split.
  - apply Contains_infix. reflexivity.
  - apply Contains_app_skip, Contains_app_skip, Contains_infix. reflexivity.
  - apply Contains_app_skip, Contains_app_skip, Contains_infix. reflexivity.
  - apply Contains_infix. reflexivity.
Qed.

(** ** More on the selection of the highest version *)

Lemma Compare_antisym_eq (a b : string) :
  Compare a b <> (-1)%Z -> Compare b a <> (-1)%Z -> a = b.
Proof.
  unfold Compare. rewrite (String.compare_antisym b a).
  destruct (String.compare a b) eqn:Hc; cbn; intros H1 H2; try congruence.
  apply String.compare_eq_iff, Hc.
Qed.

Lemma NoDup_map_injective {A B : Type} (f : A -> B) (l : list A) (x y : A) :
  NoDup (map f l) -> In x l -> In y l -> f x = f y -> x = y.
Proof.
  induction l as [|a l IH]; intros Hnd Hx Hy Hf; [contradiction|].
  cbn in Hnd. inversion Hnd as [|? ? Hnotin Hnd']; subst.
  destruct Hx as [->|Hx], Hy as [->|Hy].
  - reflexivity.
  - exfalso. apply Hnotin. rewrite Hf. apply in_map, Hy.
  - exfalso. apply Hnotin. rewrite <- Hf. apply in_map, Hx.
  - apply IH; assumption.
Qed.

Section SelectionMore.

Context {P : Policy} {D : Type}.
Variable version : D -> string.
Variable vr : Version_Expression.

Lemma highest_by_checked l :
  forall highest res r,
    highest_by version (Some vr) l highest res = Returned (inr r) ->
    Forall (range_checked version vr) l.
Proof.
  induction l as [|[k d] rest IH]; intros highest res r H; [constructor|].
  cbn [highest_by] in H.
  destruct (Is_within_range vr (version d)) as [e|b] eqn:Hin; [discriminate|].
  constructor; [exists b; exact Hin|].
  destruct b; [destruct (Compare highest (version d) =? -1)%Z|]; eapply IH; eauto.
Qed.

Lemma highest_by_total l :
  Forall (range_checked version vr) l ->
  forall highest res, exists r, highest_by version (Some vr) l highest res = Returned (inr r).
Proof.
  induction 1 as [|[k d] rest [b Hb] _ IH]; intros highest res.
  - exists res. reflexivity.
  - cbn [highest_by]. cbn [snd] in Hb. rewrite Hb.
    destruct b; [destruct (Compare highest (version d) =? -1)%Z|]; apply IH.
Qed.

Lemma highest_by_error l :
  forall k d e highest res,
    In (k, d) l -> Is_within_range vr (version d) = inl e ->
    exists msg, highest_by version (Some vr) l highest res = Returned (inl msg).
Proof.
  induction l as [|[k0 d0] rest IH]; intros k d e highest res Hin He; [contradiction|].
  cbn [highest_by].
  destruct (Is_within_range vr (version d0)) as [e0|b] eqn:H0; [eexists; reflexivity|].
  destruct Hin as [Heq|Hin]; [inversion Heq; subst; congruence|].
  destruct b; [destruct (Compare highest (version d0) =? -1)%Z|]; eapply IH; eauto.
Qed.

(** The selection does not depend on the order in which the map is
    visited, as long as no two candidates have the same version. *)
Lemma highest_by_order l l' zero r :
  Permutation.Permutation l l' ->
  NoDup (map (fun kd => version (snd kd)) l) ->
  highest_by version (Some vr) l "" zero = Returned (inr r) ->
  highest_by version (Some vr) l' "" zero = Returned (inr r).
Proof.
  intros Hperm Hnd H.
  pose proof (highest_by_checked _ _ _ _ H) as Hall.
  assert (Hall' : Forall (range_checked version vr) l') by (eapply Permutation.Permutation_Forall; eauto).
  destruct (highest_by_total _ Hall' "" zero) as (r' & H').
  rewrite H'. f_equal. f_equal.
  apply highest_by_invariant in H. apply highest_by_invariant in H'.
  destruct H as (h & Hsel & Hmax). destruct H' as (h' & Hsel' & Hmax').
  assert (Hin : forall x, In x l' -> In x l)
    by (intros x; apply Permutation.Permutation_in, Permutation.Permutation_sym, Hperm).
  assert (Hin' : forall x, In x l -> In x l')
    by (intros x; apply Permutation.Permutation_in, Hperm).
  destruct Hsel as [[-> ->]|((k & Hk) & Hr & Hv & Hlt)];
    destruct Hsel' as [[-> ->]|((k' & Hk') & Hr' & Hv' & Hlt')].
  - reflexivity.
  - exfalso. apply (Hmax k' r' (Hin _ Hk') Hr'). rewrite Hv'. exact Hlt'.
  - exfalso. apply (Hmax' k r (Hin' _ Hk) Hr). rewrite Hv. exact Hlt.
  - assert (Heq : h = h').
    { apply Compare_antisym_eq.
      - rewrite <- Hv'. apply (Hmax k' r' (Hin _ Hk') Hr').
      - rewrite <- Hv. apply (Hmax' k r (Hin' _ Hk) Hr). }
    assert (Hpair : (k', r') = (k, r)).
    { apply (NoDup_map_injective (fun kd => version (snd kd)) l);
        [exact Hnd | apply Hin, Hk' | exact Hk | cbn; congruence]. }
    inversion Hpair. reflexivity.
Qed.

End SelectionMore.

Section SelectionClaims.

Context {P : Policy}.

(** X14: the definition that the range loop of [GetWorkload] and of
    [GetMicroservice] selects does not depend on the order in which Go
    visits the map, provided that no two fetched definitions have the
    same version string. *)
Theorem selection_independent_of_map_order :
  (forall vr l l' r,
      Permutation.Permutation l l' ->
      NoDup (map (fun kd => Version (snd kd)) l) ->
      highest_workload (Some vr) l "" zero_WorkloadDefinition = Returned (inr r) ->
      highest_workload (Some vr) l' "" zero_WorkloadDefinition = Returned (inr r))
  /\ (forall vr l l' r,
        Permutation.Permutation l l' ->
        NoDup (map (fun kd => ms_Version (snd kd)) l) ->
        highest_microservice (Some vr) l "" zero_MicroserviceDefinition = Returned (inr r) ->
        highest_microservice (Some vr) l' "" zero_MicroserviceDefinition = Returned (inr r)).
Proof.
  split; intros vr l l' r Hperm Hnd H.
  - rewrite highest_workload_by in *. eapply highest_by_order; eauto.
  - rewrite highest_microservice_by in *. eapply highest_by_order; eauto.
Qed.

End SelectionClaims.

(** ** More on the lookup functions *)

Section LookupMore.

Context {W : World} {P : Policy}.

Lemma retry_get_request_trace {A : Type} url id token (onErr : error -> A)
    (onOk : response -> step A) resp0 fuel tr out tr' :
  (forall r, onOk r <> Continue) ->
  retry_loop fuel (get_request url id token) onErr onOk tr resp0 = Some (out, tr') ->
  exists n last,
    n <= fuel
    /\ tr' = (tr ++ retries (new_request "GET" url id token "") n ++ last)%list
    /\ (last = [] \/ last = [EvRequest (new_request "GET" url id token "")]).
Proof.
  intros Hok H. apply retry_loop_returns in H; [|exact Hok].
  destruct H as (n & iv & Hn & Hset & _).
  destruct (settles_trace _ _ _ _ _ _ _ _ Hset) as (last & Htr & Hlast).
  exists n, last. split; [lia|]. split; assumption.
Qed.

(** How a call of [GetWorkload] that got past [getSearchVersion]
    returned. *)
Lemma GetWorkload_returned fuel tr wURL wOrg wVersion wArch exURL id token sv out tr' :
  getSearchVersion wVersion = inr sv ->
  GetWorkload fuel tr wURL wOrg wVersion wArch exURL id token = Some (out, tr') ->
  exists n iv,
    n < fuel
    /\ settles (get_request (workload_targetURL exURL wOrg wURL sv wArch) id token)
               n tr (GetWorkloadsResponse []) iv tr'
    /\ match r_err iv with
       | Some e => out = Returned (None, Some e)
       | None =>
           match r_resp iv with
           | GetWorkloadsResponse workloadMetadata =>
               select_workload sv wVersion workloadMetadata = Done out
           | _ => out = Panicked "interface conversion"
           end
       end.
Proof.
  intros Hsv H. unfold GetWorkload in H. rewrite Hsv in H.
  apply retry_loop_returns in H.
  - destruct H as (n & iv & Hn & Hset & Hres). exists n, iv.
    split; [exact Hn|]. split; [exact Hset|].
    destruct (r_err iv); [exact Hres|]. destruct Hres as [_ Hres].
    destruct (r_resp iv); first [exact Hres | inversion Hres; reflexivity].
  - intros r. destruct r; try discriminate. apply select_workload_done.
Qed.

Lemma GetMicroservice_returned fuel tr mURL mOrg mVersion mArch exURL id token sv out tr' :
  getSearchVersion mVersion = inr sv ->
  GetMicroservice fuel tr mURL mOrg mVersion mArch exURL id token = Some (out, tr') ->
  exists n iv,
    n < fuel
    /\ settles (get_request (microservice_targetURL exURL mOrg mURL sv mArch) id token)
               n tr (GetMicroservicesResponse []) iv tr'
    /\ match r_err iv with
       | Some e => out = Returned (None, Some e)
       | None =>
           match r_resp iv with
           | GetMicroservicesResponse msMetadata =>
               select_microservice sv mVersion msMetadata = Done out
           | _ => out = Panicked "interface conversion"
           end
       end.
Proof.
  intros Hsv H. unfold GetMicroservice in H. rewrite Hsv in H.
  apply retry_loop_returns in H.
  - destruct H as (n & iv & Hn & Hset & Hres). exists n, iv.
    split; [exact Hn|]. split; [exact Hset|].
    destruct (r_err iv); [exact Hres|]. destruct Hres as [_ Hres].
    destruct (r_resp iv); first [exact Hres | inversion Hres; reflexivity].
  - intros r. destruct r; try discriminate. apply select_microservice_done.
Qed.

Lemma getSearchVersion_empty version :
  getSearchVersion version = inr "" ->
  version = "" \/ IsVersionExpression version = true.
Proof.
  unfold getSearchVersion. destruct (String.eqb_spec version "") as [->|Hne]; [auto|].
  cbn [orb]. destruct (IsVersionExpression version); [auto|].
  destruct (IsVersionString version); intros H; inversion H. contradiction.
Qed.

Lemma select_workload_range wVersion workloadMetadata :
  select_workload "" wVersion workloadMetadata
  = if (List.length workloadMetadata =? 0)%nat then Done (Returned (None, None))
    else match highest_workload (lookup_range wVersion) workloadMetadata ""
                                zero_WorkloadDefinition with
         | Panicked p => Done (Panicked p)
         | Returned (inl e) => Done (Returned (None, Some e))
         | Returned (inr resWDef) => Done (Returned (Some resWDef, None))
         end.
Proof.
  unfold select_workload, lookup_range. cbn [String.eqb negb].
  destruct (negb (wVersion =? "")); reflexivity.
Qed.

Lemma select_microservice_range mVersion msMetadata :
  select_microservice "" mVersion msMetadata
  = match highest_microservice (lookup_range mVersion) msMetadata ""
                               zero_MicroserviceDefinition with
    | Panicked p => Done (Panicked p)
    | Returned (inl e) => Done (Returned (None, Some e))
    | Returned (inr resMsDef) => Done (Returned (Some resMsDef, None))
    end.
Proof.
  unfold select_microservice, lookup_range. cbn [String.eqb negb].
  destruct (negb (mVersion =? "")); reflexivity.
Qed.

End LookupMore.

Lemma map_lookup_absent {A : Type} (k : string) (m : list (string * A)) :
  (forall a, ~ In (k, a) m) -> map_lookup k m = None.
Proof.
  intros H. unfold map_lookup.
  destruct (find (fun kv => fst kv =? k) m) as [[k' a]|] eqn:Hf; [|reflexivity].
  apply find_some in Hf. destruct Hf as [Hin Hk]. cbn in Hk.
  apply String.eqb_eq in Hk. subst k'. exfalso. eapply H, Hin.
Qed.

Lemma map_lookup_present {A : Type} (k : string) (m : list (string * A)) :
  (exists a, In (k, a) m) -> exists a', map_lookup k m = Some a' /\ In (k, a') m.
Proof.
  intros [a Ha]. unfold map_lookup.
  destruct (find (fun kv => fst kv =? k) m) as [[k' a']|] eqn:Hf.
  - apply find_some in Hf. destruct Hf as [Hin Hk]. cbn in Hk.
    apply String.eqb_eq in Hk. subst k'. exists a'. split; [reflexivity | exact Hin].
  - exfalso. apply (find_none _ _ Hf) in Ha. cbn in Ha.
    rewrite String.eqb_refl in Ha. discriminate.
Qed.

Section LookupMoreClaims.

Context {W : World} {P : Policy}.

(** X15: all requests of one lookup are the same: when it returns,
    [GetEthereumClient], [GetOrganization], [GetWorkload] or
    [GetMicroservice] has added to the trace some number of times the
    same body-less [GET] of its target URL followed by a sleep of 10
    seconds, and then at most one more such request; a version argument
    that [getSearchVersion] rejects adds nothing. *)
Theorem lookups_resend_the_same_request :
  (forall fuel tr url org chainName chainType deviceId token out tr',
      GetEthereumClient fuel tr url org chainName chainType deviceId token = Some (out, tr') ->
      let req := new_request "GET" (url ++ "orgs/" ++ org ++ "/bctypes/" ++ chainType
                                        ++ "/blockchains/" ++ chainName) deviceId token "" in
      exists n last, n <= fuel /\ tr' = (tr ++ retries req n ++ last)%list
                     /\ (last = [] \/ last = [EvRequest req]))
  /\ (forall fuel tr org exURL id token out tr',
        GetOrganization fuel tr org exURL id token = Some (out, tr') ->
        let req := new_request "GET" (exURL ++ "orgs/" ++ org) id token "" in
        exists n last, n <= fuel /\ tr' = (tr ++ retries req n ++ last)%list
                       /\ (last = [] \/ last = [EvRequest req]))
  /\ (forall fuel tr wURL wOrg wVersion wArch exURL id token out tr',
        GetWorkload fuel tr wURL wOrg wVersion wArch exURL id token = Some (out, tr') ->
        match getSearchVersion wVersion with
        | inl _ => tr' = tr
        | inr sv =>
            let req := new_request "GET" (workload_targetURL exURL wOrg wURL sv wArch)
                                   id token "" in
            exists n last, n <= fuel /\ tr' = (tr ++ retries req n ++ last)%list
                           /\ (last = [] \/ last = [EvRequest req])
        end)
  /\ (forall fuel tr mURL mOrg mVersion mArch exURL id token out tr',
        GetMicroservice fuel tr mURL mOrg mVersion mArch exURL id token = Some (out, tr') ->
        match getSearchVersion mVersion with
        | inl _ => tr' = tr
        | inr sv =>
            let req := new_request "GET" (microservice_targetURL exURL mOrg mURL sv mArch)
                                   id token "" in
            exists n last, n <= fuel /\ tr' = (tr ++ retries req n ++ last)%list
                           /\ (last = [] \/ last = [EvRequest req])
        end).
Proof.
  split; [|split; [|split]].
  - intros fuel tr url org chainName chainType deviceId token out tr' H req.
    unfold GetEthereumClient in H. eapply retry_get_request_trace; [|exact H].
    intros r. destruct r; discriminate.
  - intros fuel tr org exURL id token out tr' H req.
    unfold GetOrganization in H. eapply retry_get_request_trace; [|exact H].
    intros r. destruct r; try discriminate. destruct (map_lookup org Orgs); discriminate.
  - intros fuel tr wURL wOrg wVersion wArch exURL id token out tr' H.
    unfold GetWorkload in H. destruct (getSearchVersion wVersion) as [e|sv].
    + now inversion H.
    + intros req. eapply retry_get_request_trace; [|exact H].
      intros r. destruct r; try discriminate. apply select_workload_done.
  - intros fuel tr mURL mOrg mVersion mArch exURL id token out tr' H.
    unfold GetMicroservice in H. destruct (getSearchVersion mVersion) as [e|sv].
    + now inversion H.
    + intros req. eapply retry_get_request_trace; [|exact H].
      intros r. destruct r; try discriminate. apply select_microservice_done.
Qed.

(** X16: a definition that [GetWorkload] or [GetMicroservice] returns for
    a range (or for no version) is the zero definition, or it is one of
    the fetched definitions, lies inside the range, and no fetched
    definition inside the range has a version above it in the byte-wise
    order of [strings.Compare]. *)
Theorem range_lookup_selects_bytewise_highest :
  (forall fuel tr wURL wOrg wVersion wArch exURL id token r tr',
      wVersion = "" \/ IsVersionExpression wVersion = true ->
      GetWorkload fuel tr wURL wOrg wVersion wArch exURL id token
      = Some (Returned (Some r, None), tr') ->
      exists n iv workloadMetadata,
        n < fuel
        /\ settles (get_request (workload_targetURL exURL wOrg wURL "" wArch) id token)
                   n tr (GetWorkloadsResponse []) iv tr'
        /\ r_resp iv = GetWorkloadsResponse workloadMetadata
        /\ (r = zero_WorkloadDefinition
            \/ exists vr, lookup_range wVersion = Some vr
                          /\ bytewise_highest Version vr workloadMetadata r))
  /\ (forall fuel tr mURL mOrg mVersion mArch exURL id token r tr',
        mVersion = "" \/ IsVersionExpression mVersion = true ->
        GetMicroservice fuel tr mURL mOrg mVersion mArch exURL id token
        = Some (Returned (Some r, None), tr') ->
        exists n iv msMetadata,
          n < fuel
          /\ settles (get_request (microservice_targetURL exURL mOrg mURL "" mArch) id token)
                     n tr (GetMicroservicesResponse []) iv tr'
          /\ r_resp iv = GetMicroservicesResponse msMetadata
          /\ (r = zero_MicroserviceDefinition
              \/ exists vr, lookup_range mVersion = Some vr
                            /\ bytewise_highest ms_Version vr msMetadata r)).
Proof.
  split.
  - intros fuel tr wURL wOrg wVersion wArch exURL id token r tr' Hrange H.
    destruct (GetWorkload_returned _ _ _ _ _ _ _ _ _ _ _ _
                (getSearchVersion_range _ Hrange) H) as (n & iv & Hn & Hset & Hres).
    destruct (r_err iv); [discriminate|].
    destruct (r_resp iv) as [| | | | | | | | | |ws| | |] eqn:Hresp; try discriminate.
    exists n, iv, ws. repeat (split; [assumption|]).
    rewrite select_workload_range in Hres.
    destruct (List.length ws =? 0)%nat; [discriminate|].
    rewrite highest_workload_by in Hres.
    destruct (lookup_range wVersion) as [vr|].
    + destruct (highest_by Version (Some vr) ws "" zero_WorkloadDefinition)
        as [[e|r']|p] eqn:Hh; try discriminate.
      inversion Hres; subst r'.
      destruct (highest_by_bytewise_maximum _ _ _ _ _ Hh) as [[-> _]|Hb]; [left; reflexivity|].
      right. exists vr. split; [reflexivity | exact Hb].
    + destruct ws as [|[k d] ws]; cbn in Hres; [|discriminate].
      inversion Hres. left. reflexivity.
  - intros fuel tr mURL mOrg mVersion mArch exURL id token r tr' Hrange H.
    destruct (GetMicroservice_returned _ _ _ _ _ _ _ _ _ _ _ _
                (getSearchVersion_range _ Hrange) H) as (n & iv & Hn & Hset & Hres).
    destruct (r_err iv); [discriminate|].
    destruct (r_resp iv) as [| | | | | | | | | | |ms| |] eqn:Hresp; try discriminate.
    exists n, iv, ms. repeat (split; [assumption|]).
    rewrite select_microservice_range in Hres.
    rewrite highest_microservice_by in Hres.
    destruct (lookup_range mVersion) as [vr|].
    + destruct (highest_by ms_Version (Some vr) ms "" zero_MicroserviceDefinition)
        as [[e|r']|p] eqn:Hh; try discriminate.
      inversion Hres; subst r'.
      destruct (highest_by_bytewise_maximum _ _ _ _ _ Hh) as [[-> _]|Hb]; [left; reflexivity|].
      right. exists vr. split; [reflexivity | exact Hb].
    + destruct ms as [|[k d] ms]; cbn in Hres; [|discriminate].
      inversion Hres. left. reflexivity.
Qed.

(** X17: one fetched definition whose version the range check cannot
    verify makes the whole range lookup fail: [GetWorkload] and
    [GetMicroservice] then return an error and no definition, wherever
    that definition stands in the map. *)
Theorem range_lookup_fails_on_unverifiable_version :
  forall (n fuel : nat) (version : string) (vr : Version_Expression) (e : error),
    version = "" \/ IsVersionExpression version = true ->
    lookup_range version = Some vr ->
    n < fuel ->
    (forall tr wURL wOrg wArch exURL id token iv tr' workloadMetadata k d,
        settles (get_request (workload_targetURL exURL wOrg wURL "" wArch) id token)
                n tr (GetWorkloadsResponse []) iv tr' ->
        r_err iv = None ->
        r_resp iv = GetWorkloadsResponse workloadMetadata ->
        In (k, d) workloadMetadata ->
        Is_within_range vr (Version d) = inl e ->
        exists msg,
          GetWorkload fuel tr wURL wOrg version wArch exURL id token
          = Some (Returned (None, Some msg), tr'))
    /\ (forall tr mURL mOrg mArch exURL id token iv tr' msMetadata k d,
          settles (get_request (microservice_targetURL exURL mOrg mURL "" mArch) id token)
                  n tr (GetMicroservicesResponse []) iv tr' ->
          r_err iv = None ->
          r_resp iv = GetMicroservicesResponse msMetadata ->
          In (k, d) msMetadata ->
          Is_within_range vr (ms_Version d) = inl e ->
          exists msg,
            GetMicroservice fuel tr mURL mOrg version mArch exURL id token
            = Some (Returned (None, Some msg), tr')).
Proof.
  intros n fuel version vr e Hrange Hvr Hfuel. split.
  - intros tr wURL wOrg wArch exURL id token iv tr' ws k d Hset Herr Hresp Hin He.
    unfold GetWorkload. rewrite (getSearchVersion_range _ Hrange).
    rewrite (retry_loop_settles _ _ _ _ _ _ _ _ Hset fuel Hfuel), Herr, Hresp.
    rewrite select_workload_range, Hvr, highest_workload_by.
    destruct ws as [|kd ws]; [contradiction|]. cbn [List.length Nat.eqb].
    destruct (highest_by_error Version vr (kd :: ws) k d e "" zero_WorkloadDefinition Hin He)
      as (msg & ->).
    exists msg. reflexivity.
  - intros tr mURL mOrg mArch exURL id token iv tr' ms k d Hset Herr Hresp Hin He.
    unfold GetMicroservice. rewrite (getSearchVersion_range _ Hrange).
    rewrite (retry_loop_settles _ _ _ _ _ _ _ _ Hset fuel Hfuel), Herr, Hresp.
    rewrite select_microservice_range, Hvr, highest_microservice_by.
    destruct (highest_by_error ms_Version vr ms k d e "" zero_MicroserviceDefinition Hin He)
      as (msg & ->).
    exists msg. reflexivity.
Qed.

(** X18: [GetMicroservice] never returns a nil definition together with
    a nil error: whatever its arguments and whatever the Exchange
    answers, what it returns holds a definition or an error. *)
Theorem GetMicroservice_never_returns_nil_nil :
  forall fuel tr mURL mOrg mVersion mArch exURL id token msDef err tr',
    GetMicroservice fuel tr mURL mOrg mVersion mArch exURL id token
    = Some (Returned (msDef, err), tr') ->
    (exists d, msDef = Some d) \/ (exists e, err = Some e).
Proof.
  intros fuel tr mURL mOrg mVersion mArch exURL id token msDef err tr' H.
  destruct msDef as [d|]; [left; eexists; reflexivity|].
  destruct err as [e|]; [right; eexists; reflexivity|]. exfalso.
  destruct (getSearchVersion mVersion) as [e|sv] eqn:Hsv.
  - unfold GetMicroservice in H. rewrite Hsv in H. discriminate.
  - destruct (GetMicroservice_returned _ _ _ _ _ _ _ _ _ _ _ _ Hsv H)
      as (n & iv & _ & _ & Hres).
    destruct (r_err iv); [discriminate|].
    destruct (r_resp iv) as [| | | | | | | | | | |ms| |]; try discriminate.
    destruct (String.eqb_spec sv "") as [->|Hne].
    + eapply select_microservice_never_nil, Hres.
    + unfold select_microservice in Hres. apply String.eqb_neq in Hne.
      rewrite Hne in Hres. cbn [negb] in Hres.
      destruct ms as [|[k m] [|km ms]]; cbn in Hres; discriminate.
Qed.

(** X19: [GetWorkload] returns a nil definition together with a nil
    error only when it was called with a range (or no version) and the
    Exchange answered with no workload definition at all. *)
Theorem GetWorkload_nil_nil_means_empty_answer :
  forall fuel tr wURL wOrg wVersion wArch exURL id token tr',
    GetWorkload fuel tr wURL wOrg wVersion wArch exURL id token
    = Some (Returned (None, None), tr') ->
    (wVersion = "" \/ IsVersionExpression wVersion = true)
    /\ exists n iv,
         n < fuel
         /\ settles (get_request (workload_targetURL exURL wOrg wURL "" wArch) id token)
                    n tr (GetWorkloadsResponse []) iv tr'
         /\ r_err iv = None
         /\ r_resp iv = GetWorkloadsResponse [].
Proof.
  intros fuel tr wURL wOrg wVersion wArch exURL id token tr' H.
  destruct (getSearchVersion wVersion) as [e|sv] eqn:Hsv.
  - unfold GetWorkload in H. rewrite Hsv in H. discriminate.
  - destruct (GetWorkload_returned _ _ _ _ _ _ _ _ _ _ _ _ Hsv H)
      as (n & iv & Hn & Hset & Hres).
    destruct (r_err iv) eqn:Herr; [discriminate|].
    destruct (r_resp iv) as [| | | | | | | | | |ws| | |] eqn:Hresp; try discriminate.
    destruct (String.eqb_spec sv "") as [->|Hne].
    + split; [apply getSearchVersion_empty, Hsv|].
      exists n, iv. split; [exact Hn|]. split; [exact Hset|]. split; [exact Herr|].
      rewrite select_workload_range in Hres.
      destruct ws as [|kd ws]; [exact Hresp|]. cbn [List.length Nat.eqb] in Hres.
      destruct (highest_workload _ _ _ _) as [[?|?]|?]; discriminate.
    + unfold select_workload in Hres. apply String.eqb_neq in Hne.
      rewrite Hne in Hres. cbn [negb] in Hres.
      destruct ws as [|[k w] [|kw ws]]; cbn in Hres; discriminate.
Qed.

End LookupMoreClaims.

Section ResolverAndRecords.

Context {W : World} {P : Policy}.

(** A dependency whose lookup went through: its version makes a version
    expression, and [GetMicroservice], called with that expression,
    returned a definition and no error. *)
Lemma resolve_microservices_resolved fuel exURL id token apiSpecs :
  forall tr tr2,
    resolve_microservices fuel tr apiSpecs exURL id token = Some (Returned None, tr2) ->
    Forall (fun apiSpec =>
              exists vExp t1 ms t2,
                Version_Expression_Factory (APISpec_Version apiSpec) = inr vExp
                /\ GetMicroservice fuel t1 (APISpec_SpecRef apiSpec) (APISpec_Org apiSpec)
                                   (Get_expression vExp) (APISpec_Arch apiSpec)
                                   exURL id token
                   = Some (Returned (Some ms, None), t2))
           apiSpecs.
Proof.
  induction apiSpecs as [|apiSpec rest IH]; intros tr tr2 H; [constructor|].
  cbn [resolve_microservices] in H.
  destruct (Version_Expression_Factory (APISpec_Version apiSpec)) as [e|vExp] eqn:Hv;
    [discriminate|].
  destruct (GetMicroservice fuel tr _ _ _ _ exURL id token)
    as [[[[[ms|] [e|]]|p] tr1]|] eqn:Hg; try discriminate.
  constructor; [|eapply IH, H].
  exists vExp, tr, ms, tr1. split; [exact Hv | exact Hg].
Qed.

(** X20: when [WorkloadResolver] returns a dependency list, it returns no
    error with it; the workload was fetched by [GetWorkload] and has
    exactly one deployment; the list is the workload's [apiSpec] list,
    converted element by element in the same order; and for every
    dependency the version made a version expression and the lookup of
    the microservice returned a definition. *)
Theorem WorkloadResolver_success :
  forall fuel tr wURL wOrg wVersion wArch exURL id token res e tr2,
    WorkloadResolver fuel tr wURL wOrg wVersion wArch exURL id token
    = Some (Returned (Some res, e), tr2) ->
    e = None
    /\ exists workload tr1,
         GetWorkload fuel tr wURL wOrg wVersion wArch exURL id token
         = Some (Returned (Some workload, None), tr1)
         /\ List.length (Workloads workload) = 1
         /\ res = map (fun apiSpec =>
                         APISpecification_Factory
                           (APISpec_SpecRef apiSpec) (APISpec_Org apiSpec)
                           (APISpec_Version apiSpec) (APISpec_Arch apiSpec))
                      (APISpecs workload)
         /\ Forall (fun apiSpec =>
                      exists vExp t1 ms t2,
                        Version_Expression_Factory (APISpec_Version apiSpec) = inr vExp
                        /\ GetMicroservice fuel t1 (APISpec_SpecRef apiSpec)
                                           (APISpec_Org apiSpec) (Get_expression vExp)
                                           (APISpec_Arch apiSpec) exURL id token
                           = Some (Returned (Some ms, None), t2))
                   (APISpecs workload).
Proof.
  intros fuel tr wURL wOrg wVersion wArch exURL id token res e tr2 H.
  unfold WorkloadResolver in H.
  destruct (GetWorkload fuel tr wURL wOrg wVersion wArch exURL id token)
    as [[[[[workload|] [e0|]]|p] tr1]|] eqn:Hg; try discriminate.
  destruct (Nat.eqb_spec (List.length (Workloads workload)) 1) as [Hlen|Hlen];
    cbn [negb] in H; [|discriminate].
  destruct (resolve_microservices fuel tr1 (APISpecs workload) exURL id token)
    as [[[[e1|]|p] tr3]|] eqn:Hr; try discriminate.
  inversion H; subst. split; [reflexivity|].
  exists workload, tr1. split; [reflexivity|]. split; [exact Hlen|].
  split; [reflexivity|]. eapply resolve_microservices_resolved, Hr.
Qed.

(** X21: [WorkloadResolver] with a version argument that is neither
    empty, nor a version expression, nor a version string returns the
    error of [getSearchVersion] without sending any request, whatever
    the fuel; with an accepted version argument, a transport that fails
    for good and a target URL for which the request can be built, it
    never returns. *)
Theorem WorkloadResolver_version_and_transport :
  forall wURL wOrg wVersion wArch exURL id token,
    (forall e, getSearchVersion wVersion = inl e ->
               forall fuel tr,
                 WorkloadResolver fuel tr wURL wOrg wVersion wArch exURL id token
                 = Some (Returned (None, Some e), tr))
    /\ (forall sv, getSearchVersion wVersion = inr sv ->
                   transport_always_fails ->
                   http_NewRequest "GET" (workload_targetURL exURL wOrg wURL sv wArch) = None ->
                   forall fuel tr,
                     WorkloadResolver fuel tr wURL wOrg wVersion wArch exURL id token = None).
Proof.
  intros wURL wOrg wVersion wArch exURL id token. split.
  - intros e He fuel tr. unfold WorkloadResolver, GetWorkload. rewrite He. reflexivity.
  - intros sv Hsv Hdown Hnew fuel tr. unfold WorkloadResolver, GetWorkload. rewrite Hsv.
    rewrite retry_loop_diverges; [reflexivity|].
    intros t r. apply get_request_down; [exact Hdown | | exact Hnew].
    apply workload_targetURL_not_empty.
Qed.

(** X22: once the Exchange has answered, [GetOrganization] returns the
    record stored under the organization's name, or the error
    "organization ... not found" when the answer has no such entry; it
    never returns a nil record together with a nil error. *)
Theorem GetOrganization_lookup :
  (forall n fuel tr org exURL id token iv tr' orgs,
      settles (get_request (exURL ++ "orgs/" ++ org) id token)
              n tr (GetOrganizationResponse []) iv tr' ->
      r_err iv = None ->
      r_resp iv = GetOrganizationResponse orgs ->
      n < fuel ->
      ((exists theOrg, In (org, theOrg) orgs) ->
       exists theOrg,
         In (org, theOrg) orgs
         /\ GetOrganization fuel tr org exURL id token
            = Some (Returned (Some theOrg, None), tr'))
      /\ ((forall theOrg, ~ In (org, theOrg) orgs) ->
          GetOrganization fuel tr org exURL id token
          = Some (Returned (None, Some ("organization " ++ org ++ " not found")), tr')))
  /\ (forall fuel tr org exURL id token tr',
        GetOrganization fuel tr org exURL id token <> Some (Returned (None, None), tr')).
Proof.
  split.
  - intros n fuel tr org exURL id token iv tr' orgs Hset Herr Hresp Hfuel.
    unfold GetOrganization.
    rewrite (retry_loop_settles _ _ _ _ _ _ _ _ Hset fuel Hfuel), Herr, Hresp.
    split.
    + intros Hin. destruct (map_lookup_present org orgs Hin) as (o & -> & Ho).
      exists o. split; [exact Ho | reflexivity].
    + intros Hno. rewrite (map_lookup_absent org orgs Hno). reflexivity.
  - intros fuel tr org exURL id token tr' H. unfold GetOrganization in H.
    apply retry_loop_returns in H.
    + destruct H as (n & iv & _ & _ & Hres).
      destruct (r_err iv); [discriminate|]. destruct Hres as [_ Hres].
      destruct (r_resp iv); try discriminate.
      destruct (map_lookup org Orgs); discriminate.
    + intros r. destruct r; try discriminate. destruct (map_lookup org Orgs); discriminate.
Qed.

(** X23: once the Exchange has answered, [GetEthereumClient] returns the
    details stored under the chain's name, as they are, and no error;
    when the answer has no entry of that name it returns the empty
    string, again with no error. *)
Theorem GetEthereumClient_lookup :
  forall n fuel tr url org chainName chainType deviceId token iv tr' blockchains,
    settles (get_request (url ++ "orgs/" ++ org ++ "/bctypes/" ++ chainType
                              ++ "/blockchains/" ++ chainName) deviceId token)
            n tr (GetEthereumClientResponse []) iv tr' ->
    r_err iv = None ->
    r_resp iv = GetEthereumClientResponse blockchains ->
    n < fuel ->
    ((exists b, In (chainName, b) blockchains) ->
     exists b,
       In (chainName, b) blockchains
       /\ GetEthereumClient fuel tr url org chainName chainType deviceId token
          = Some (Returned (bc_Details b, None), tr'))
    /\ ((forall b, ~ In (chainName, b) blockchains) ->
        GetEthereumClient fuel tr url org chainName chainType deviceId token
        = Some (Returned ("", None), tr')).
Proof.
  intros n fuel tr url org chainName chainType deviceId token iv tr' bcs
         Hset Herr Hresp Hfuel.
  unfold GetEthereumClient.
  rewrite (retry_loop_settles _ _ _ _ _ _ _ _ Hset fuel Hfuel), Herr, Hresp.
  split.
  - intros Hin. destruct (map_lookup_present chainName bcs Hin) as (b & -> & Hb).
    exists b. split; [exact Hb | reflexivity].
  - intros Hno. rewrite (map_lookup_absent chainName bcs Hno). reflexivity.
Qed.

End ResolverAndRecords.

(** ** Concrete runs for the further properties *)

Module MoreRuns.

Import Scenario MoreScenarios.

Lemma GetOrg_GetId_of_joined_witness :
  GetOrg "acme/n1" = Returned "acme" /\ GetId "acme/n1" = Returned "n1".
Proof. apply (GetOrg_GetId_of_joined "acme" "n1"). reflexivity. Defined.

Lemma GetOrg_GetId_split_witness :
  exists org rest,
    GetOrg "acme/devices/n1" = Returned org /\ GetId "acme/devices/n1" = Returned rest
    /\ "acme/devices/n1" = org ++ "/" ++ rest /\ Contains org "/" = false.
Proof. apply (GetOrg_GetId_split "acme/devices/n1"). reflexivity. Defined.

Lemma ConvertToString_joins_witness :
  ConvertToString (["amd64"] ++ ["arm" ++ "6"])
  = String.concat "," (["amd64"] ++ ["arm" ++ "6"]).
Proof. apply (ConvertToString_joins ["amd64"] "arm" "6"). discriminate. Defined.

Lemma InvokeExchange_success_witness :
  exists r0 requestBody httpResp unread_v,
    Some (GetOrganizationResponse []) = Some r0
    /\ marshal_params None = inr requestBody
    /\ httpClient_Do (World := answers_empty) []
                     (new_request "GET" exchange_url "n1" "tok" requestBody)
       = {| rt_outcome := DoResponse httpResp; rt_unread := unread_v |}
    /\ accepted_status "GET" (StatusCode httpResp) = true
    /\ (json_Unmarshal (World := answers_empty) (body_bytes httpResp) r0
        = inr (r_resp (fst (InvokeExchange (W := answers_empty) [] "GET" exchange_url
                                           "n1" "tok" None
                                           (Some (GetOrganizationResponse [])))))
        /\ (forall v, r_resp (fst (InvokeExchange (W := answers_empty) [] "GET" exchange_url
                                                  "n1" "tok" None
                                                  (Some (GetOrganizationResponse []))))
                      <> UnknownResponse v)
        /\ (forall code msg,
               r_resp (fst (InvokeExchange (W := answers_empty) [] "GET" exchange_url
                                           "n1" "tok" None
                                           (Some (GetOrganizationResponse []))))
               = PostDeviceResponse code msg -> code = "ok")).
Proof.
  apply (InvokeExchange_success (W := answers_empty) [] "GET" exchange_url "n1" "tok"
           None (Some (GetOrganizationResponse []))); reflexivity.
Defined.

Lemma InvokeExchange_other_methods_witness :
  fst (InvokeExchange (W := forbidden_403) [] "get" exchange_url "n1" "tok" None
                      (Some (GetOrganizationResponse [])))
  = decode_response (W := forbidden_403) "get" exchange_url None ""
                    "invalid credentials" (GetOrganizationResponse []).
Proof.
  apply (InvokeExchange_other_methods (W := forbidden_403) [] "get" exchange_url "n1" "tok"
           None (GetOrganizationResponse []) ""
           {| StatusCode := 403; Body := Some ("invalid credentials", None) |} "").
  - discriminate.
  - cbn. intuition discriminate.
  - discriminate.
  - reflexivity.
  - reflexivity.
  - reflexivity.
  - reflexivity.
Defined.

Lemma InvokeExchange_reports_response_code_witness :
  exists text,
    r_err (fst (InvokeExchange (W := rejected_post) [] "POST" exchange_url "n1" "tok" None
                               (Some (PostDeviceResponse "" ""))))
    = Some text
    /\ r_tpErr (fst (InvokeExchange (W := rejected_post) [] "POST" exchange_url "n1" "tok"
                                    None (Some (PostDeviceResponse "" "")))) = None
    /\ Contains text "node acme/n1 not found" = true.
Proof.
  apply (InvokeExchange_reports_response_code (W := rejected_post) [] "POST" exchange_url
           "n1" "tok" None (PostDeviceResponse "" "") ""
           {| StatusCode := 201; Body := Some ("rejected", None) |} "" "bad"
           "node acme/n1 not found");
    first [discriminate | reflexivity].
Defined.

Lemma isTimeout_words_witness :
  isTimeout ("dial tcp: i/o " ++ "Time" ++ "" ++ "OUT" ++ " while connecting") = true
  /\ isTimeout ("dial tcp: i/o " ++ "OUT" ++ "" ++ "Time" ++ " while connecting") = true.
Proof.
  apply (isTimeout_words "Time" "OUT" "dial tcp: i/o " "" " while connecting");
    reflexivity.
Defined.

Lemma range_lookup_fails_on_unverifiable_version_witness :
  exists msg tr',
    GetWorkload (W := unverifiable_version) (P := P) 1 [] wURL "acme" "[1.0.0,2.0.0)" "amd64"
                exURL "n1" "tok"
    = Some (Returned (None, Some msg), tr').
Proof.
  pose proof (proj1 (range_lookup_fails_on_unverifiable_version
                       (W := unverifiable_version) (P := P) 0 1 "[1.0.0,2.0.0)"
                       range_1_to_2
                       "input version latest is not a valid version string"
                       (or_intror eq_refl) eq_refl Nat.lt_0_1)) as H.
  edestruct (H [] wURL "acme" "amd64" exURL "n1" "tok") as (msg & Hmsg).
  - eapply settles_now; [vm_compute; reflexivity | right; reflexivity].
  - reflexivity.
  - reflexivity.
  - right. left. reflexivity.
  - vm_compute. reflexivity.
  - exists msg. eexists. exact Hmsg.
Defined.

Lemma GetMicroservice_never_returns_nil_nil_witness :
  (exists d, Some zero_MicroserviceDefinition = Some d)
  \/ (exists e, @None error = Some e).
Proof.
  eapply (GetMicroservice_never_returns_nil_nil (W := nothing_stored) (P := P)
            1 [] mURL "acme" "[1.0.0,2.0.0)" "amd64" exURL "n1" "tok").
  vm_compute. reflexivity.
Defined.

Lemma GetWorkload_nil_nil_means_empty_answer_witness :
  ("[1.0.0,2.0.0)" = "" \/ IsVersionExpression (Policy := P) "[1.0.0,2.0.0)" = true)
  /\ exists n iv,
       n < 1
       /\ settles (get_request (W := no_workloads)
                               (workload_targetURL exURL "acme" wURL "" "amd64") "n1" "tok")
                  n [] (GetWorkloadsResponse []) iv
                  [EvRequest (new_request "GET"
                                (workload_targetURL exURL "acme" wURL "" "amd64")
                                "n1" "tok" "")]
       /\ r_err iv = None
       /\ r_resp iv = GetWorkloadsResponse [].
Proof.
  apply (GetWorkload_nil_nil_means_empty_answer (W := no_workloads) (P := P)
           1 [] wURL "acme" "[1.0.0,2.0.0)" "amd64" exURL "n1" "tok").
  vm_compute. reflexivity.
Defined.

Lemma WorkloadResolver_success_witness :
  @None error = None
  /\ exists workload tr1,
       GetWorkload (W := resolvable) (P := P) 1 [] wURL "acme" "1.0.0" "amd64"
                   exURL "n1" "tok"
       = Some (Returned (Some workload, None), tr1)
       /\ List.length (Workloads workload) = 1
       /\ [(mURL, "acme", "1.0.0", "amd64")]
          = map (fun apiSpec =>
                   APISpecification_Factory (Policy := P)
                     (APISpec_SpecRef apiSpec) (APISpec_Org apiSpec)
                     (APISpec_Version apiSpec) (APISpec_Arch apiSpec))
                (APISpecs workload)
       /\ Forall (fun apiSpec =>
                    exists vExp t1 ms t2,
                      Version_Expression_Factory (Policy := P) (APISpec_Version apiSpec)
                      = inr vExp
                      /\ GetMicroservice (W := resolvable) (P := P) 1 t1
                                         (APISpec_SpecRef apiSpec) (APISpec_Org apiSpec)
                                         (Get_expression vExp) (APISpec_Arch apiSpec)
                                         exURL "n1" "tok"
                         = Some (Returned (Some ms, None), t2))
                 (APISpecs workload).
Proof.
  eapply (WorkloadResolver_success (W := resolvable) (P := P)
            1 [] wURL "acme" "1.0.0" "amd64" exURL "n1" "tok").
  vm_compute. reflexivity.
Defined.

Lemma GetEthereumClient_lookup_witness :
  exists b,
    In ("bluehorizon", b) [("bluehorizon", bluehorizon)]
    /\ exists tr',
         GetEthereumClient (W := one_blockchain) 1 [] exURL "acme" "bluehorizon" "ethereum"
                           "n1" "tok"
         = Some (Returned (bc_Details b, None), tr').
Proof.
  edestruct (GetEthereumClient_lookup (W := one_blockchain) 0 1 [] exURL "acme"
               "bluehorizon" "ethereum" "n1" "tok") as [Hpresent _].
  - eapply settles_now; [vm_compute; reflexivity | right; reflexivity].
  - reflexivity.
  - reflexivity.
  - lia.
  - destruct Hpresent as (b & Hb & Hrun).
    + exists bluehorizon. left. reflexivity.
    + exists b. split; [exact Hb|]. eexists. exact Hrun.
Defined.

Lemma WorkloadResolver_version_and_transport_witness :
  (exists e,
      WorkloadResolver (W := dead_transport_strict) (P := P) 50 [] wURL "acme" "latest"
                       "amd64" exURL "n1" "tok"
      = Some (Returned (None, Some e), []))
  /\ WorkloadResolver (W := dead_transport_strict) (P := P) 50 [] wURL "acme" "1.2.0"
                      "amd64" exURL "n1" "tok" = None.
Proof.
  split.
  - eexists.
    apply (proj1 (WorkloadResolver_version_and_transport (W := dead_transport_strict) (P := P)
                    wURL "acme" "latest" "amd64" exURL "n1" "tok")).
    vm_compute. reflexivity.
  - apply (proj2 (WorkloadResolver_version_and_transport (W := dead_transport_strict) (P := P)
                    wURL "acme" "1.2.0" "amd64" exURL "n1" "tok") "1.2.0").
    + reflexivity.
    + intros t req. reflexivity.
    + reflexivity.
Defined.

End MoreRuns.
